(** * rxState: a reactive state container on top of rxjs

    Shallow embedding of [src/index.ts] ([setupState], [setState],
    [getState]) together with the part of the JavaScript and rxjs semantics
    that the container relies on.

    Layout:
    - [JS]: the fragment of JavaScript values the container manipulates
      (strict equality, truthiness, property lookup, object spread) and the
      evaluation monad for code that may throw and that calls user functions;
    - [Rx]: the rxjs operators used by the pipeline ([scan] accumulator
      handling, [pluck], [distinctUntilChanged], [filter], [ReplaySubject],
      [shareReplay]) as step functions on their per-subscription state;
    - [RxState]: the container itself, as explicit state passing over the
      closure variables of [setupState];
    - the properties.

    Scope of the model.  Observers only record what they are handed: they
    do not call [setState] from inside a callback and they do not
    unsubscribe.  An update function is a function of the state it is
    given.  Numbers are integers, property lookup sees own properties
    only. *)

From Stdlib Require Import List String ZArith Bool Arith Lia.
Import ListNotations.
Local Open Scope string_scope.
Local Open Scope list_scope.
Set Warnings "-register-all".

(* ================================================================== *)
(** * JavaScript values *)
(* ================================================================== *)

Module JS.

(** Object identity.  [Lit n] is an object created by the caller (an object
    literal in the initial state, in a partial update or in the result of an
    update function); [Snap n] is the object created by the [n]-th evaluation
    of the object literal [{...state, ...partial}] inside the reducer. *)
Inductive ref : Type :=
| Lit (n : nat)
| Snap (n : nat).

Definition ref_eqb (a b : ref) : bool :=
  match a, b with
  | Lit n, Lit m => Nat.eqb n m
  | Snap n, Snap m => Nat.eqb n m
  | _, _ => false
  end.

(** Values.  Numbers are restricted to integers (no NaN, no signed zero);
    an object is its identity together with its own enumerable properties in
    insertion order.  Objects are never mutated by the container. *)
Inductive value : Type :=
| VUndefined
| VNull
| VBool (b : bool)
| VNum (n : Z)
| VStr (s : string)
| VObj (r : ref) (props : list (string * value)).

(** [x === y] *)
Definition strict_eq (x y : value) : bool :=
  match x, y with
  | VUndefined, VUndefined => true
  | VNull, VNull => true
  | VBool a, VBool b => Bool.eqb a b
  | VNum a, VNum b => Z.eqb a b
  | VStr a, VStr b => String.eqb a b
  | VObj r _, VObj r' _ => ref_eqb r r'
  | _, _ => false
  end.

(** [Boolean(x)] *)
Definition Boolean (x : value) : bool :=
  match x with
  | VUndefined | VNull => false
  | VBool b => b
  | VNum n => negb (Z.eqb n 0)
  | VStr s => negb (String.eqb s "")
  | VObj _ _ => true
  end.

(** Own enumerable properties, the ones an object spread copies.  A spread
    of [undefined], [null], a boolean or a number copies nothing.  The
    indexed characters of a string are not modelled: states and partials
    are objects. *)
Definition ownProps (x : value) : list (string * value) :=
  match x with
  | VObj _ props => props
  | _ => []
  end.

(** The value a property list gives to [k].  Were a key written twice, the
    later entry counts, as in an object literal. *)
Fixpoint lookup (k : string) (props : list (string * value)) : option value :=
  match props with
  | [] => None
  | (k', v) :: rest =>
      match lookup k rest with
      | Some w => Some w
      | None => if String.eqb k k' then Some v else None
      end
  end.

(** [x[k]] on a value that is not [null] or [undefined]; only own properties
    are modelled (nothing is inherited from a prototype). *)
Definition get (x : value) (k : string) : value :=
  match lookup k (ownProps x) with
  | Some v => v
  | None => VUndefined
  end.

(** [o[k] = v] on a property list: an existing key keeps its position. *)
Fixpoint set (k : string) (v : value) (props : list (string * value))
  : list (string * value) :=
  match props with
  | [] => [(k, v)]
  | (k', v') :: rest =>
      if String.eqb k k' then (k', v) :: rest else (k', v') :: set k v rest
  end.

(** Copy the properties [src] one by one onto [dst], as a spread element
    inside an object literal does. *)
Definition assign (dst src : list (string * value)) : list (string * value) :=
  fold_left (fun acc kv => set (fst kv) (snd kv) acc) src dst.

(** [{...a, ...b}], the new object being allocated at [r]. *)
Definition spread2 (r : ref) (a b : value) : value :=
  VObj r (assign (assign [] (ownProps a)) (ownProps b)).

(** The error raised by calling something that is not callable and by
    reading a property of [null] or [undefined]. *)
Definition TypeError : value := VStr "TypeError".

(** ** Evaluation monad

    A computation either returns or throws, and records the arguments of the
    calls it makes to caller-supplied update functions (oldest first). *)
Inductive completion (A : Type) : Type :=
| Return (a : A)
| Throw (e : value).
Arguments Return {A} a.
Arguments Throw {A} e.

Definition eval (A : Type) : Type := (list value * completion A)%type.

Definition ret {A} (a : A) : eval A := ([], Return a).
Definition throw {A} (e : value) : eval A := ([], Throw e).
Definition bind {A B} (m : eval A) (f : A -> eval B) : eval B :=
  match snd m with
  | Return a => (fst m ++ fst (f a), snd (f a))
  | Throw e => (fst m, Throw e)
  end.

End JS.

Export JS.

Notation "x <- m ;; k" := (bind m (fun x => k))
  (at level 61, m at next level, right associativity).

(* ================================================================== *)
(** * The rxjs operators of the pipeline *)
(* ================================================================== *)

(** rxjs itself is a dependency of the repository, not part of it.  The
    operators are modelled after rxjs 6 (the version line whose
    [rxjs/operators] entry point, [pluck] and [shareReplay(1)] the source
    uses): a [Subject] hands a value to its current subscribers in the
    order they subscribed and to no one when there is none; [scan] with a
    seed emits the results of its accumulator and never the seed; an
    exception raised inside an operator callback is caught by the operator
    and sent downstream as an error notification, which ends the
    subscription; [shareReplay(1)] subscribes its source on the first
    subscription, replays the last value to later ones, and builds a new
    [ReplaySubject] after an error; [pluck] is the null-safe one of the
    later releases. *)
Module Rx.

Inductive notification : Type :=
| Next (v : value)
| Error (e : value).

(** The mapper of [pluck(...props)]:
    [p = currentProp != null ? currentProp[props[i]] : undefined], and the
    walk stops with [undefined] as soon as [p] is [undefined]. *)
Fixpoint plucker (props : list string) (currentProp : value) : value :=
  match props with
  | [] => currentProp
  | prop :: rest =>
      let p := match currentProp with
               | VUndefined | VNull => VUndefined
               | _ => get currentProp prop
               end in
      match p with
      | VUndefined => VUndefined
      | _ => plucker rest p
      end
  end.

(** [distinctUntilChanged()] with the default comparison [===].  The state
    is the key of the last value let through ([None] while [hasKey] is
    false); the result says whether the value is passed on. *)
Definition distinctUntilChanged (key : option value) (x : value)
  : option value * bool :=
  match key with
  | Some k => if strict_eq k x then (key, false) else (Some x, true)
  | None => (Some x, true)
  end.

(** [ReplaySubject(1)]: the last value and the subscribers, oldest first. *)
Record ReplaySubject (S : Type) : Type := mkReplaySubject {
  buffer : option value;
  observers : list S
}.
Arguments mkReplaySubject {S} _ _.
Arguments buffer {S} _.
Arguments observers {S} _.

(** The closure variables of one [shareReplay(1)] call. *)
Record ShareReplay (S : Type) : Type := mkShareReplay {
  subject : option (ReplaySubject S);
  hasError : bool
}.
Arguments mkShareReplay {S} _ _.
Arguments subject {S} _.
Arguments hasError {S} _.

Definition share_init {S} : ShareReplay S := mkShareReplay None false.

(** A new subscriber [s].  When there is no subject yet, or the last one
    failed, a new subject is made and the source has to be subscribed (the
    boolean); otherwise [s] joins and is handed the buffered value. *)
Definition share_subscribe {S} (sh : ShareReplay S) (s : S)
  : ShareReplay S * bool * option value :=
  let fresh := mkShareReplay (Some (mkReplaySubject None [s])) false in
  match subject sh with
  | None => (fresh, true, None)
  | Some rs =>
      if hasError sh then (fresh, true, None)
      else (mkShareReplay
              (Some (mkReplaySubject (buffer rs) (observers rs ++ [s]))) false,
            false, buffer rs)
  end.

(** The source emits [v]: it is buffered and goes to every subscriber. *)
Definition share_next {S} (sh : ShareReplay S) (v : value)
  : ShareReplay S * list S :=
  match subject sh with
  | None => (sh, [])
  | Some rs =>
      (mkShareReplay (Some (mkReplaySubject (Some v) (observers rs)))
         (hasError sh),
       observers rs)
  end.

(** The source fails: [hasError = true], every subscriber is told and the
    subject forgets them. *)
Definition share_error {S} (sh : ShareReplay S) : ShareReplay S * list S :=
  match subject sh with
  | None => (mkShareReplay None true, [])
  | Some rs =>
      (mkShareReplay (Some (mkReplaySubject (buffer rs) [])) true,
       observers rs)
  end.

End Rx.

Export Rx.

(* ================================================================== *)
(** * The container: [setupState] *)
(* ================================================================== *)

Module RxState.

(** [StateUpdate = Partial<T> | UpdateFunction].  An update function is a
    function of the state it is given; it returns a value or throws. *)
Inductive StateUpdate : Type :=
| Partial (p : value)
| UpdateFunction (f : value -> completion value).

(** [Boolean((update as Function).apply)].  Every function inherits a
    truthy [apply]; a partial answers with its own [apply] property. *)
Definition isFunction (update : StateUpdate) : eval bool :=
  match update with
  | UpdateFunction _ => ret true
  | Partial VUndefined | Partial VNull => throw TypeError
  | Partial p => ret (Boolean (get p "apply"))
  end.

(** [update(state)]: the call is recorded; calling an object throws. *)
Definition call (update : StateUpdate) (state : value) : eval value :=
  match update with
  | UpdateFunction f => ([state], f state)
  | Partial _ => throw TypeError
  end.

(** [update] itself as the operand of a spread. *)
Definition operand (update : StateUpdate) : value :=
  match update with
  | Partial p => p
  | UpdateFunction _ => VUndefined
  end.

(** The accumulator handed to [scan]:
    [(state, update) => ({...state, ...(isFunction(update) ? update(state) : update)})].
    [r] numbers the object the literal creates. *)
Definition accumulator (r : nat) (state : value) (update : StateUpdate)
  : eval value :=
  b <- isFunction update ;;
  partial <- (if b then call update state else ret (operand update)) ;;
  ret (spread2 (Snap r) state partial).

(** The predicate of [filter]: [value !== null && value !== undefined]. *)
Definition present (value : value) : bool :=
  negb (strict_eq value VNull) && negb (strict_eq value VUndefined).

(** Subscribers from outside the container are known by a number. *)
Definition observer : Type := nat.

(** What [getState] returns: [state$] itself, or the pipeline built by the
    [i]-th call of [getState] with a non-empty path. *)
Inductive handle : Type :=
| Full
| View (i : nat).

Definition handle_eqb (a b : handle) : bool :=
  match a, b with
  | Full, Full => true
  | View i, View j => Nat.eqb i j
  | _, _ => false
  end.

(** The subscribers of [state$]: outside observers and the pipelines of the
    path views. *)
Inductive sink : Type :=
| ToObserver (o : observer)
| ToView (i : nat).

(** One callback invocation on an outside observer. *)
Record event : Type := mkEvent {
  source : handle;
  target : observer;
  what : notification
}.

(** One observable returned by [getState(...path)] with a non-empty path:
    [state$.pipe(pluck(...path), distinctUntilChanged(), filter(..),
    shareReplay(1))].  [key] is the state of its [distinctUntilChanged]
    subscriber, [shared] the state of its [shareReplay]. *)
Record view : Type := mkView {
  path : list string;
  key : option value;
  shared : ShareReplay observer
}.

(** The closure of [setupState] and the world around it.
    - [stateUpdate_seed]: the subscribers of the subject [stateUpdate$].
      Only [state$]'s [shareReplay] ever subscribes its source, and not
      again before that subscription has ended, so there is at most one:
      the [scan] subscriber, given by its running [seed];
    - [state_shared]: the [shareReplay(1)] of [state$];
    - [views]: the pipelines [getState] has built so far;
    - [allocated]: how many times the accumulator has been entered;
    - [invoked]: arguments of the update-function calls made so far;
    - [delivered]: every notification handed to an outside observer, in
      the order of the calls. *)
Record container : Type := mkContainer {
  initialState : value;
  stateUpdate_seed : option value;
  state_shared : ShareReplay sink;
  views : list view;
  allocated : nat;
  invoked : list value;
  delivered : list event
}.

Definition setupState (initialState : value) : container :=
  mkContainer initialState None share_init [] 0 [] [].

Definition with_views (vs : list view) (c : container) : container :=
  mkContainer (initialState c) (stateUpdate_seed c) (state_shared c) vs
    (allocated c) (invoked c) (delivered c).

Definition deliver (evs : list event) (c : container) : container :=
  mkContainer (initialState c) (stateUpdate_seed c) (state_shared c)
    (views c) (allocated c) (invoked c) (delivered c ++ evs).

Fixpoint replace_nth {A} (i : nat) (a : A) (l : list A) : list A :=
  match l, i with
  | [], _ => []
  | _ :: rest, O => a :: rest
  | x :: rest, S j => x :: replace_nth j a rest
  end.

(** ** A path view receives a notification from [state$] *)

(** [pluck], then [distinctUntilChanged], then [filter], then the view's
    own replay subject and its subscribers. *)
Definition view_next (i : nat) (vw : view) (state : value)
  : view * list event :=
  let candidate := plucker (path vw) state in
  let (key', passed) := distinctUntilChanged (key vw) candidate in
  if passed && present candidate then
    let (sh, targets) := share_next (shared vw) candidate in
    (mkView (path vw) key' sh,
     map (fun o => mkEvent (View i) o (Next candidate)) targets)
  else (mkView (path vw) key' (shared vw), []).

(** An error passes through the three operators untouched. *)
Definition view_error (i : nat) (vw : view) (e : value) : view * list event :=
  let (sh, targets) := share_error (shared vw) in
  (mkView (path vw) (key vw) sh,
   map (fun o => mkEvent (View i) o (Error e)) targets).

Definition view_notify (i : nat) (n : notification) (vs : list view)
  : list view * list event :=
  match nth_error vs i with
  | None => (vs, [])
  | Some vw =>
      let (vw', evs) := match n with
                        | Next state => view_next i vw state
                        | Error e => view_error i vw e
                        end in
      (replace_nth i vw' vs, evs)
  end.

(** [state$]'s replay subject hands [n] to its subscribers, oldest first;
    a path view finishes its own delivery before the next subscriber is
    served. *)
Fixpoint fanout (n : notification) (sinks : list sink) (vs : list view)
  : list view * list event :=
  match sinks with
  | [] => (vs, [])
  | ToObserver o :: rest =>
      let (vs', evs) := fanout n rest vs in
      (vs', mkEvent Full o n :: evs)
  | ToView i :: rest =>
      let (vs1, evs1) := view_notify i n vs in
      let (vs2, evs2) := fanout n rest vs1 in
      (vs2, evs1 ++ evs2)
  end.

(** ** [setState]

    [stateUpdate$.next(update)].  Without a subscriber on the subject the
    update goes nowhere.  Otherwise the [scan] subscriber runs the
    accumulator on its seed: a result becomes the seed and is emitted into
    [state$]; an exception is caught by [scan], sent on as an error, and
    ends the [scan] subscription. *)
Definition setState (update : StateUpdate) (c : container) : container :=
  match stateUpdate_seed c with
  | None => c
  | Some state =>
      let (calls, result) := accumulator (allocated c) state update in
      match result with
      | Return state' =>
          let (sh, sinks) := share_next (state_shared c) state' in
          let (vs, evs) := fanout (Next state') sinks (views c) in
          mkContainer (initialState c) (Some state') sh vs
            (S (allocated c)) (invoked c ++ calls) (delivered c ++ evs)
      | Throw e =>
          let (sh, sinks) := share_error (state_shared c) in
          let (vs, evs) := fanout (Error e) sinks (views c) in
          mkContainer (initialState c) None sh vs
            (S (allocated c)) (invoked c ++ calls) (delivered c ++ evs)
      end
  end.

(** ** [getState]

    [Boolean(path.length) ? state$.pipe(...) : state$].  Every call with a
    non-empty path builds a new observable with operators of its own. *)
Definition getState (path : list string) (c : container)
  : handle * container :=
  if Boolean (VNum (Z.of_nat (List.length path)))
  then (View (List.length (views c)),
        with_views (views c ++ [mkView path None share_init]) c)
  else (Full, c).

(** ** Subscribing *)

(** A subscription to [state$] by the sink [s].  Connecting the source
    means a new [scan] subscriber on [stateUpdate$], seeded with
    [initialState].  The value to replay to [s] is returned. *)
Definition subscribe_state (s : sink) (c : container)
  : container * option value :=
  let '(sh, connect, replayed) := share_subscribe (state_shared c) s in
  (mkContainer (initialState c)
     (if connect then Some (initialState c) else stateUpdate_seed c)
     sh (views c) (allocated c) (invoked c) (delivered c),
   replayed).

Definition replay (h : handle) (o : observer) (b : option value)
  : list event :=
  match b with
  | Some v => [mkEvent h o (Next v)]
  | None => []
  end.

(** [h.subscribe(o)].  A handle that [getState] has not returned is left
    alone. *)
Definition subscribe (h : handle) (o : observer) (c : container)
  : container :=
  match h with
  | Full =>
      let (c', replayed) := subscribe_state (ToObserver o) c in
      deliver (replay Full o replayed) c'
  | View i =>
      match nth_error (views c) i with
      | None => c
      | Some vw =>
          let '(sh, connect, replayed) := share_subscribe (shared vw) o in
          if connect then
            (* new operators are chained onto [state$] *)
            let c0 :=
              with_views (replace_nth i (mkView (path vw) None sh) (views c)) c
            in
            let (c1, snapshot) := subscribe_state (ToView i) c0 in
            match snapshot with
            | Some state =>
                let (vs, evs) := view_notify i (Next state) (views c1) in
                deliver evs (with_views vs c1)
            | None => c1
            end
          else
            deliver (replay (View i) o replayed)
              (with_views
                 (replace_nth i (mkView (path vw) (key vw) sh) (views c)) c)
      end
  end.

(** The notifications among [evs] that go to [o] through [h]. *)
Definition notes (h : handle) (o : observer) (evs : list event)
  : list notification :=
  map what
    (filter (fun ev => handle_eqb (source ev) h && Nat.eqb (target ev) o) evs).

(** What the observer [o] has been handed through its subscription to
    [h], oldest first. *)
Definition received (h : handle) (o : observer) (c : container)
  : list notification :=
  notes h o (delivered c).

(** Several updates submitted one after the other. *)
Definition submit (updates : list StateUpdate) (c : container) : container :=
  fold_left (fun c u => setState u c) updates c.

End RxState.

Export RxState.

(* ================================================================== *)
(** * Vocabulary of the properties *)
(* ================================================================== *)

Module Props.

(** The snapshot a late subscriber of [state$] is handed: the buffered one
    while the replay subject is in use, none before the first subscription
    and none after a failure. *)
Definition latest (c : container) : option value :=
  match subject (state_shared c) with
  | Some rs => if hasError (state_shared c) then None else buffer rs
  | None => None
  end.

(** The state the next update is merged into once [scan] is subscribed. *)
Definition current (c : container) : value :=
  match stateUpdate_seed c with
  | Some state => state
  | None => initialState c
  end.

(** How many times [o] is subscribed to [state$]. *)
Fixpoint count (o : observer) (sinks : list sink) : nat :=
  match sinks with
  | [] => 0
  | ToObserver o' :: rest =>
      if Nat.eqb o' o then S (count o rest) else count o rest
  | ToView _ :: rest => count o rest
  end.

Definition subscriptions (o : observer) (c : container) : nat :=
  match subject (state_shared c) with
  | Some rs => count o (observers rs)
  | None => 0
  end.

(** ** The fold of the specification

    [S0 = initialState], [Sn = merge(Sn-1, resolve(update_n, Sn-1))], as a
    left fold that stops at the first update that throws.  The counter
    numbers the objects the merge creates. *)
Definition merge (acc : completion (nat * value)) (update : StateUpdate)
  : completion (nat * value) :=
  match acc with
  | Return (r, state) =>
      match snd (accumulator r state update) with
      | Return state' => Return (S r, state')
      | Throw e => Throw e
      end
  | Throw e => Throw e
  end.

Definition folded (r : nat) (state : value) (updates : list StateUpdate)
  : completion value :=
  match fold_left merge updates (Return (r, state)) with
  | Return (_, state') => Return state'
  | Throw e => Throw e
  end.

(** The running values of that fold, up to the first update that throws. *)
Fixpoint snapshots (r : nat) (state : value) (updates : list StateUpdate)
  : list value :=
  match updates with
  | [] => []
  | u :: rest =>
      match snd (accumulator r state u) with
      | Return state' => state' :: snapshots (S r) state' rest
      | Throw _ => []
      end
  end.

(** The update-function calls of that fold. *)
Fixpoint calls (r : nat) (state : value) (updates : list StateUpdate)
  : list value :=
  match updates with
  | [] => []
  | u :: rest =>
      fst (accumulator r state u) ++
      match snd (accumulator r state u) with
      | Return state' => calls (S r) state' rest
      | Throw _ => []
      end
  end.

(** ** One path pipeline fed with snapshots *)

Definition feed (i : nat) (vw : view) (states : list value) : view :=
  fold_left (fun vw state => fst (view_next i vw state)) states vw.

(** The [distinctUntilChanged] stage of [vw] holds back the candidate that
    [state] gives. *)
Definition suppressed (vw : view) (state : value) : bool :=
  negb (snd (distinctUntilChanged (key vw) (plucker (path vw) state))).

(** The value most recently handed to the observers of [vw]. *)
Definition last_emitted (vw : view) : option value :=
  match subject (shared vw) with
  | Some rs => buffer rs
  | None => None
  end.

(** ** What the interface can reach

    The containers that [setupState init] followed by any calls of
    [setState], [getState] and [subscribe] produces, the updates being taken
    from [P]. *)
Inductive reachable (P : StateUpdate -> Prop) (init : value)
  : container -> Prop :=
| reach_setup : reachable P init (setupState init)
| reach_setState c u :
    reachable P init c -> P u -> reachable P init (setState u c)
| reach_getState c p :
    reachable P init c -> reachable P init (snd (getState p c))
| reach_subscribe c h o :
    reachable P init c -> reachable P init (subscribe h o c).

Definition any_update (u : StateUpdate) : Prop := True.

(** ** Paths on which the model reads what the code reads

    [get] looks at own properties.  In the code [x[k]] also finds what [x]
    inherits: an object literal inherits the properties of
    [Object.prototype], and a string, a number or a boolean has the
    properties of its wrapper.  The walk of [pluck] along [props] from [x]
    stays where both agree when it reads own properties of objects only:
    no segment it looks up, and does not find as an own property, names a
    property of [Object.prototype], and it never looks a property up on a
    string, a number or a boolean. *)
Definition object_prototype_names : list string :=
  ["constructor"; "__defineGetter__"; "__defineSetter__"; "hasOwnProperty";
   "__lookupGetter__"; "__lookupSetter__"; "isPrototypeOf";
   "propertyIsEnumerable"; "toString"; "valueOf"; "__proto__";
   "toLocaleString"].

Definition inherited (k : string) : bool :=
  existsb (String.eqb k) object_prototype_names.

Fixpoint plain_walk (props : list string) (x : value) : bool :=
  match props with
  | [] => true
  | prop :: rest =>
      match x with
      | VUndefined | VNull => true
      | VObj _ own =>
          match lookup prop own with
          | Some VUndefined => true
          | Some v => plain_walk rest v
          | None => negb (inherited prop)
          end
      | _ => false
      end
  end.

(** The state has nothing at [p]: the walk reads own properties of objects
    only and ends on [null] or [undefined]. *)
Definition nothing_at (p : list string) (state : value) : Prop :=
  plain_walk p state = true /\ present (plucker p state) = false.

(** ** Runs whose updates are judged where they are processed

    As [reachable], but the condition [Q] on an update sees the container
    the update is submitted to. *)
Inductive run (Q : container -> StateUpdate -> Prop) (init : value)
  : container -> Prop :=
| run_setup : run Q init (setupState init)
| run_setState c u :
    run Q init c -> Q c u -> run Q init (setState u c)
| run_getState c p :
    run Q init c -> run Q init (snd (getState p c))
| run_subscribe c h o :
    run Q init c -> run Q init (subscribe h o c).

(** Submitted to [c], the update [u] leaves the path [p] empty: if the
    reducer is subscribed and holds [state], merging [u] into [state]
    gives a state with nothing at [p]; when [errors] is set it may also
    throw.  An update that is dropped is not judged. *)
Definition keeps_empty (errors : bool) (p : list string) (c : container)
  (u : StateUpdate) : Prop :=
  forall state,
    stateUpdate_seed c = Some state ->
    match snd (accumulator (allocated c) state u) with
    | Return state' => nothing_at p state'
    | Throw _ => errors = true
    end.

(** ** Invariants of the reachable containers *)

(** The [scan] subscriber exists exactly while [state$]'s replay subject is
    in use. *)
Definition seed_inv (c : container) : Prop :=
  stateUpdate_seed c = None <->
  (subject (state_shared c) = None \/ hasError (state_shared c) = true).

(** A value handed over by a path view is neither [null] nor [undefined],
    and so is the one a path view keeps for late subscribers. *)
Definition value_event (ev : event) : Prop :=
  match source ev, what ev with
  | View _, Next v => present v = true
  | _, _ => True
  end.

Definition buffer_present (vw : view) : Prop :=
  forall v, last_emitted vw = Some v -> present v = true.

Definition present_inv (c : container) : Prop :=
  Forall value_event (delivered c) /\ Forall buffer_present (views c).

(** Nothing has come out of the views on path [p], and nothing is on its
    way: no state the container holds has a value at [p]. *)
Definition paths (vs : list view) : list (list string) := map path vs.

Definition quiet_event (errors : bool) (p : list string)
  (ps : list (list string)) (ev : event) : Prop :=
  match source ev with
  | View i =>
      (exists q, nth_error ps i = Some q /\ q <> p) \/
      (errors = true /\ exists e, what ev = Error e)
  | Full => True
  end.

Definition nothing_emitted (p : list string) (vw : view) : Prop :=
  path vw = p -> last_emitted vw = None.

Definition silent_inv (errors : bool) (p : list string) (c : container)
  : Prop :=
  present (plucker p (initialState c)) = false /\
  (forall state, stateUpdate_seed c = Some state ->
                 present (plucker p state) = false) /\
  (forall state, latest c = Some state ->
                 present (plucker p state) = false) /\
  Forall (nothing_emitted p) (views c) /\
  Forall (quiet_event errors p (paths (views c))) (delivered c).

End Props.

Export Props.

(* ================================================================== *)
(** * Worked inputs *)
(* ================================================================== *)

Module Examples.

Definition obj (n : nat) (props : list (string * value)) : value :=
  VObj (Lit n) props.

(** [{a: {x: 1}, b: 2}] and the partial [{a: {y: 2}}] *)
Definition nested : value :=
  obj 0 [("a", obj 1 [("x", VNum 1)]); ("b", VNum 2)].
Definition replace_a : StateUpdate :=
  Partial (obj 2 [("a", obj 3 [("y", VNum 2)])]).

(** [{v: 0}], [{v: 1}], [{w: 2}] and [s => ({v: s.v + 1})] *)
Definition counter : value := obj 0 [("v", VNum 0)].
Definition set_v : StateUpdate := Partial (obj 1 [("v", VNum 1)]).
Definition set_w : StateUpdate := Partial (obj 2 [("w", VNum 2)]).
Definition increment : StateUpdate :=
  UpdateFunction (fun s =>
    match get s "v" with
    | VNum n => Return (obj 3 [("v", VNum (n + 1))])
    | _ => Throw TypeError
    end).

(** [state => state], and a function that throws *)
Definition same : StateUpdate := UpdateFunction (fun s => Return s).
Definition boom : StateUpdate :=
  UpdateFunction (fun _ => Throw (VStr "boom")).

(** [{a: 1}] and partials that set [a] *)
Definition has_a : value := obj 0 [("a", VNum 1)].
Definition a_is (n : nat) (v : value) : StateUpdate :=
  Partial (obj n [("a", v)]).

(** A state type with a field called [apply] *)
Definition with_apply : value := obj 0 [("apply", VNum 0)].
Definition set_apply : StateUpdate := Partial (obj 1 [("apply", VNum 1)]).

End Examples.

(* ================================================================== *)
(** * Vocabulary for the path views *)
(* ================================================================== *)

Module Views.

(** The subscribers [state$]'s replay subject holds. *)
Definition sinks (c : container) : list sink :=
  match subject (state_shared c) with
  | Some rs => observers rs
  | None => []
  end.

(** How many times the pipeline of view [i] is chained onto [state$]. *)
Fixpoint count_view (i : nat) (l : list sink) : nat :=
  match l with
  | [] => 0
  | ToView j :: rest =>
      if Nat.eqb j i then S (count_view i rest) else count_view i rest
  | ToObserver _ :: rest => count_view i rest
  end.

(** How many times [o] is subscribed among [l]. *)
Definition subscribed (o : observer) (l : list observer) : nat :=
  List.length (filter (Nat.eqb o) l).

(** A view is connected: its [shareReplay] has a subject that has not
    failed, so its operators are subscribed to [state$]. *)
Definition view_live (vw : view) : bool :=
  match subject (shared vw) with
  | Some _ => negb (hasError (shared vw))
  | None => false
  end.

(** The observers subscribed to a view. *)
Definition view_observers (vw : view) : list observer :=
  match subject (shared vw) with
  | Some rs => observers rs
  | None => []
  end.

(** Does the value at [path] differ from the one in the snapshot that
    [state$] holds, if it holds one? *)
Definition changed (path : list string) (held : option value) (new : value)
  : bool :=
  match held with
  | Some state => negb (strict_eq (plucker path state) new)
  | None => true
  end.

Definition live_at (vs : list view) (i : nat) : bool :=
  match nth_error vs i with
  | Some vw => view_live vw
  | None => false
  end.

(** One notification through the operators of a view. *)
Definition view_step (i : nat) (n : notification) (vw : view)
  : view * list event :=
  match n with
  | Next state => view_next i vw state
  | Error e => view_error i vw e
  end.

(** The last of the values [l], or [d] when there is none. *)
Definition last_value (l : list value) (d : option value) : option value :=
  match rev l with
  | v :: _ => Some v
  | [] => d
  end.

(** The notifications that replay [b] to a new subscriber. *)
Definition handed (b : option value) : list notification :=
  match b with
  | Some v => [Next v]
  | None => []
  end.

(** [distinctUntilChanged] over a whole sequence of candidates. *)
Fixpoint distinct_run (key : option value) (xs : list value) : list value :=
  match xs with
  | [] => []
  | x :: rest =>
      if snd (distinctUntilChanged key x)
      then x :: distinct_run (fst (distinctUntilChanged key x)) rest
      else distinct_run (fst (distinctUntilChanged key x)) rest
  end.

(** The key of a connected view follows the snapshot [state$] holds. *)
Definition key_tracks (vw : view) (l : option value) : Prop :=
  match l with
  | Some state =>
      exists k, key vw = Some k /\
                strict_eq k (plucker (path vw) state) = true
  | None => key vw = None
  end.

(** Every connected view is chained onto [state$] exactly once, a view
    that is not connected is not chained, a failed [state$] has no
    subscriber left, and the keys of the connected views are up to date. *)
Definition chain_inv (c : container) : Prop :=
  (hasError (state_shared c) = true -> sinks c = []) /\
  (forall i, count_view i (sinks c) = if live_at (views c) i then 1 else 0) /\
  (forall i vw, nth_error (views c) i = Some vw -> view_live vw = true ->
                key_tracks vw (latest c)).

End Views.

Export Views.

(* ================================================================== *)
(** * Property lists and the object spread *)
(* ================================================================== *)

Section PropertyLists.

Implicit Types (k : string) (v : value) (l : list (string * value)).

Lemma lookup_absent k l : ~ In k (map fst l) -> lookup k l = None.
Proof.
  induction l as [|[k' v'] rest IH]; simpl; intros Hk; [reflexivity|].
  rewrite IH by tauto.
  destruct (String.eqb_spec k k'); [subst; tauto | reflexivity].
Qed.

Lemma set_keys k v l k' :
  In k' (map fst (set k v l)) <-> k' = k \/ In k' (map fst l).
Proof.
  induction l as [|[k0 v0] rest IH]; simpl.
  - intuition congruence.
  - destruct (String.eqb_spec k k0); simpl.
    + subst. intuition congruence.
    + rewrite IH. tauto.
Qed.

Lemma set_NoDup k v l : NoDup (map fst l) -> NoDup (map fst (set k v l)).
Proof.
  induction l as [|[k0 v0] rest IH]; simpl; intros Hnd.
  - constructor; [intros [] | constructor].
  - inversion Hnd as [|? ? Hnotin Hrest]; subst.
    destruct (String.eqb_spec k k0); simpl.
    + constructor; assumption.
    + constructor; [|auto].
      rewrite set_keys. intros [->|Hin]; [congruence | contradiction].
Qed.

Lemma lookup_set k k' v l :
  NoDup (map fst l) ->
  lookup k (set k' v l) = if String.eqb k k' then Some v else lookup k l.
Proof.
  induction l as [|[k0 v0] rest IH]; simpl; intros Hnd.
  - destruct (String.eqb k k'); reflexivity.
  - inversion Hnd as [|? ? Hnotin Hrest]; subst.
    destruct (String.eqb_spec k' k0) as [->|Hne]; simpl.
    + destruct (String.eqb_spec k k0) as [->|Hk].
      * rewrite lookup_absent by assumption. reflexivity.
      * reflexivity.
    + rewrite IH by assumption.
      destruct (String.eqb_spec k k') as [->|Hk].
      * reflexivity.
      * reflexivity.
Qed.

Lemma assign_spec src : forall dst,
  NoDup (map fst dst) ->
  NoDup (map fst (assign dst src)) /\
  forall k, lookup k (assign dst src) =
            match lookup k src with
            | Some v => Some v
            | None => lookup k dst
            end.
Proof.
  unfold assign.
  induction src as [|[k' v'] rest IH]; simpl; intros dst Hnd.
  - split; [assumption | reflexivity].
  - destruct (IH (set k' v' dst) (set_NoDup k' v' dst Hnd)) as [Hnd' Hlk].
    split; [assumption|].
    intros k. rewrite Hlk, lookup_set by assumption.
    destruct (lookup k rest); [reflexivity|].
    destruct (String.eqb k k'); reflexivity.
Qed.

(** A field of [{...a, ...b}] is [b]'s when [b] has it and [a]'s otherwise. *)
Lemma get_spread2 r a b k :
  get (spread2 r a b) k =
  match lookup k (ownProps b) with
  | Some v => v
  | None => get a k
  end.
Proof.
  unfold get, spread2; simpl.
  destruct (assign_spec (ownProps a) [] (NoDup_nil _)) as [Hnd Ha].
  destruct (assign_spec (ownProps b) _ Hnd) as [_ Hb].
  rewrite Hb, Ha. simpl.
  destruct (lookup k (ownProps b)); [reflexivity|].
  destruct (lookup k (ownProps a)); reflexivity.
Qed.

End PropertyLists.

(* ================================================================== *)
(** * Delivery *)
(* ================================================================== *)

Section Delivery.

Lemma notes_app h o a b : notes h o (a ++ b) = notes h o a ++ notes h o b.
Proof. unfold notes. rewrite filter_app, map_app. reflexivity. Qed.

Lemma notes_from_view i o evs :
  Forall (fun ev => source ev = View i) evs -> notes Full o evs = [].
Proof.
  unfold notes. induction 1 as [|ev evs Hev _ IH]; simpl; [reflexivity|].
  rewrite Hev. simpl. exact IH.
Qed.

Lemma Forall_map_mk {A} (P : event -> Prop) (f : A -> event) l :
  (forall a, P (f a)) -> Forall P (map f l).
Proof. intros H. induction l; simpl; constructor; auto. Qed.

Lemma view_next_source i vw state :
  Forall (fun ev => source ev = View i) (snd (view_next i vw state)).
Proof.
  unfold view_next.
  destruct (distinctUntilChanged _ _) as [key' passed].
  destruct (passed && present _); simpl; [|constructor].
  destruct (share_next _ _) as [sh targets]; simpl.
  apply Forall_map_mk; reflexivity.
Qed.

Lemma view_error_source i vw e :
  Forall (fun ev => source ev = View i) (snd (view_error i vw e)).
Proof.
  unfold view_error. destruct (share_error _) as [sh targets]; simpl.
  apply Forall_map_mk; reflexivity.
Qed.

Lemma view_notify_source i n vs :
  Forall (fun ev => source ev = View i) (snd (view_notify i n vs)).
Proof.
  unfold view_notify. destruct (nth_error vs i) as [vw|]; [|constructor].
  destruct n as [state|e].
  - pose proof (view_next_source i vw state) as H.
    destruct (view_next i vw state); exact H.
  - pose proof (view_error_source i vw e) as H.
    destruct (view_error i vw e); exact H.
Qed.

(** An observer of [state$] is called once per subscription it holds. *)
Lemma fanout_full n o sinks : forall vs,
  notes Full o (snd (fanout n sinks vs)) = repeat n (count o sinks).
Proof.
  induction sinks as [|[o'|i] rest IH]; intros vs; simpl; [reflexivity| |].
  - specialize (IH vs). destruct (fanout n rest vs) as [vs' evs]; simpl in *.
    unfold notes in *; simpl.
    destruct (Nat.eqb o' o); simpl; rewrite IH; reflexivity.
  - pose proof (view_notify_source i n vs) as Hv.
    destruct (view_notify i n vs) as [vs1 evs1]; simpl in Hv.
    specialize (IH vs1). destruct (fanout n rest vs1) as [vs2 evs2]; simpl in *.
    rewrite notes_app, (notes_from_view i o evs1 Hv), IH. reflexivity.
Qed.

Lemma count_app o a b : count o (a ++ b) = count o a + count o b.
Proof.
  induction a as [|[o'|i] rest IH]; simpl; [reflexivity| |assumption].
  destruct (Nat.eqb o' o); simpl; rewrite IH; reflexivity.
Qed.

(** Only errors come out of an error. *)
Lemma fanout_error e sinks : forall vs,
  Forall (fun ev => what ev = Error e) (snd (fanout (Error e) sinks vs)).
Proof.
  induction sinks as [|[o'|i] rest IH]; intros vs; simpl; [constructor| |].
  - specialize (IH vs). destruct (fanout _ rest vs) as [vs' evs]; simpl in *.
    constructor; [reflexivity | assumption].
  - assert (Hv : Forall (fun ev => what ev = Error e)
                   (snd (view_notify i (Error e) vs))).
    { unfold view_notify. destruct (nth_error vs i) as [vw|]; [|constructor].
      unfold view_error. destruct (share_error _) as [sh targets]; simpl.
      apply Forall_map_mk; reflexivity. }
    destruct (view_notify i (Error e) vs) as [vs1 evs1]; simpl in Hv.
    specialize (IH vs1). destruct (fanout _ rest vs1) as [vs2 evs2]; simpl in *.
    apply Forall_app; split; assumption.
Qed.

End Delivery.

(* ================================================================== *)
(** * One [setState] *)
(* ================================================================== *)

Section SetState.

Lemma accumulator_function r state f :
  accumulator r state (UpdateFunction f) =
  ([state],
   match f state with
   | Return partial => Return (spread2 (Snap r) state partial)
   | Throw e => Throw e
   end).
Proof.
  unfold accumulator, bind; simpl. destruct (f state); reflexivity.
Qed.

Lemma accumulator_partial_calls r state p :
  fst (accumulator r state (Partial p)) = [].
Proof.
  unfold accumulator, bind.
  destruct p as [| |b|n|s|ref props]; simpl; try reflexivity.
  destruct (Boolean _); reflexivity.
Qed.

Lemma accumulator_partial_object r state ref props :
  snd (accumulator r state (Partial (VObj ref props))) =
  if Boolean (get (VObj ref props) "apply")
  then Throw TypeError
  else Return (spread2 (Snap r) state (VObj ref props)).
Proof.
  unfold accumulator, bind; simpl. destruct (Boolean _); reflexivity.
Qed.

Lemma setState_unsubscribed u c :
  stateUpdate_seed c = None -> setState u c = c.
Proof. unfold setState. intros ->. reflexivity. Qed.

Lemma setState_return u c state state' :
  stateUpdate_seed c = Some state ->
  snd (accumulator (allocated c) state u) = Return state' ->
  setState u c =
  mkContainer (initialState c) (Some state')
    (fst (share_next (state_shared c) state'))
    (fst (fanout (Next state') (snd (share_next (state_shared c) state'))
            (views c)))
    (S (allocated c))
    (invoked c ++ fst (accumulator (allocated c) state u))
    (delivered c ++
     snd (fanout (Next state') (snd (share_next (state_shared c) state'))
            (views c))).
Proof.
  unfold setState. intros -> Hacc.
  destruct (accumulator _ _ _) as [cs res]; simpl in *; subst res.
  destruct (share_next _ _) as [sh sinks]; simpl.
  destruct (fanout _ _ _) as [vs evs]; reflexivity.
Qed.

Lemma setState_throw u c state e :
  stateUpdate_seed c = Some state ->
  snd (accumulator (allocated c) state u) = Throw e ->
  setState u c =
  mkContainer (initialState c) None
    (fst (share_error (state_shared c)))
    (fst (fanout (Error e) (snd (share_error (state_shared c))) (views c)))
    (S (allocated c))
    (invoked c ++ fst (accumulator (allocated c) state u))
    (delivered c ++
     snd (fanout (Error e) (snd (share_error (state_shared c))) (views c))).
Proof.
  unfold setState. intros -> Hacc.
  destruct (accumulator _ _ _) as [cs res]; simpl in *; subst res.
  destruct (share_error _) as [sh sinks]; simpl.
  destruct (fanout _ _ _) as [vs evs]; reflexivity.
Qed.

Lemma submit_unsubscribed updates : forall c,
  stateUpdate_seed c = None -> submit updates c = c.
Proof.
  unfold submit. induction updates as [|u rest IH]; intros c Hc; simpl.
  - reflexivity.
  - rewrite setState_unsubscribed by assumption. auto.
Qed.

End SetState.

(* ================================================================== *)
(** * The fold *)
(* ================================================================== *)

Section Fold.

Lemma fold_merge_throw updates e :
  fold_left merge updates (Throw e) = Throw e.
Proof. induction updates as [|u rest IH]; simpl; auto. Qed.

Lemma folded_nil r state : folded r state [] = Return state.
Proof. reflexivity. Qed.

Lemma folded_cons r state u rest :
  folded r state (u :: rest) =
  match snd (accumulator r state u) with
  | Return state' => folded (S r) state' rest
  | Throw e => Throw e
  end.
Proof.
  unfold folded; simpl.
  destruct (snd (accumulator r state u)); [reflexivity|].
  rewrite fold_merge_throw. reflexivity.
Qed.

Lemma snapshots_length updates : forall r state final,
  folded r state updates = Return final ->
  List.length (snapshots r state updates) = List.length updates.
Proof.
  induction updates as [|u rest IH]; intros r state final; simpl.
  - reflexivity.
  - rewrite folded_cons.
    destruct (snd (accumulator r state u)) as [state'|e]; [|discriminate].
    intros H. simpl. f_equal. eauto.
Qed.

Lemma snapshots_nth updates : forall r state N sN,
  nth_error (snapshots r state updates) N = Some sN ->
  folded r state (firstn (S N) updates) = Return sN.
Proof.
  induction updates as [|u rest IH]; intros r state N sN; simpl.
  - destruct N; discriminate.
  - change (firstn (S N) (u :: rest)) with (u :: firstn N rest).
    rewrite folded_cons.
    destruct (snd (accumulator r state u)) as [state'|e].
    + destruct N as [|N]; simpl.
      * intros [= ->]. reflexivity.
      * apply IH.
    + destruct N; discriminate.
Qed.

Lemma flat_map_once {A B} (f : A -> B) l :
  flat_map (fun a => repeat (f a) 1) l = map f l.
Proof. induction l as [|a l IH]; simpl; [reflexivity | f_equal; exact IH]. Qed.

(** A run of updates on a connected pipeline, none of which throws. *)
Lemma submit_connected updates : forall c state rs final,
  stateUpdate_seed c = Some state ->
  subject (state_shared c) = Some rs ->
  folded (allocated c) state updates = Return final ->
  stateUpdate_seed (submit updates c) = Some final /\
  (exists rs',
      subject (state_shared (submit updates c)) = Some rs' /\
      observers rs' = observers rs /\
      buffer rs' = match updates with
                   | [] => buffer rs
                   | _ => Some final
                   end) /\
  hasError (state_shared (submit updates c)) = hasError (state_shared c) /\
  invoked (submit updates c) =
    invoked c ++ calls (allocated c) state updates /\
  forall o,
    received Full o (submit updates c) =
    received Full o c ++
    flat_map (fun sn => repeat (Next sn) (count o (observers rs)))
      (snapshots (allocated c) state updates).
Proof.
  induction updates as [|u rest IH]; intros c state rs final Hseed Hsub Hfold.
  - simpl in *. rewrite folded_nil in Hfold. injection Hfold as <-.
    repeat split; try assumption.
    + exists rs. auto.
    + rewrite app_nil_r. reflexivity.
    + intros o. rewrite app_nil_r. reflexivity.
  - rewrite folded_cons in Hfold.
    destruct (snd (accumulator (allocated c) state u)) as [state'|e] eqn:Hacc;
      [|discriminate].
    pose proof (setState_return u c state state' Hseed Hacc) as Hstep.
    change (submit (u :: rest) c) with (submit rest (setState u c)).
    set (c1 := setState u c) in *.
    assert (Hseed1 : stateUpdate_seed c1 = Some state')
      by (rewrite Hstep; reflexivity).
    assert (Hsub1 : subject (state_shared c1) =
                    Some (mkReplaySubject (Some state') (observers rs))).
    { rewrite Hstep; simpl. unfold share_next. rewrite Hsub. reflexivity. }
    assert (Halloc1 : allocated c1 = S (allocated c))
      by (rewrite Hstep; reflexivity).
    assert (Herr1 : hasError (state_shared c1) = hasError (state_shared c)).
    { rewrite Hstep; simpl. unfold share_next. rewrite Hsub. reflexivity. }
    assert (Hdel1 : forall o, received Full o c1 =
              received Full o c ++ repeat (Next state') (count o (observers rs))).
    { intros o. unfold received. rewrite Hstep; simpl.
      rewrite notes_app, fanout_full.
      unfold share_next. rewrite Hsub. reflexivity. }
    assert (Hinv1 : invoked c1 =
              invoked c ++ fst (accumulator (allocated c) state u))
      by (rewrite Hstep; reflexivity).
    rewrite <- Halloc1 in Hfold.
    destruct (IH c1 state' _ final Hseed1 Hsub1 Hfold)
      as (Hs & (rs' & Hrs' & Hobs & Hbuf) & He & Hi & Hr).
    simpl snapshots. simpl calls. rewrite Hacc.
    repeat split.
    + exact Hs.
    + exists rs'. repeat split; try assumption.
      destruct rest; simpl in *; [|assumption].
      rewrite folded_nil in Hfold. injection Hfold as <-. assumption.
    + rewrite He. exact Herr1.
    + rewrite Hi, Hinv1, Halloc1, <- app_assoc. reflexivity.
    + intros o. rewrite Hr, Hdel1, Halloc1, <- app_assoc. reflexivity.
Qed.

End Fold.

(* ================================================================== *)
(** * Subscribing to [state$] *)
(* ================================================================== *)

Section Subscribing.

Lemma seed_inv_reachable P init c : reachable P init c -> seed_inv c.
Proof.
  unfold seed_inv.
  induction 1 as [|c u Hc IH Hu|c p Hc IH|c h o Hc IH].
  - simpl. tauto.
  - unfold setState.
    destruct (stateUpdate_seed c) as [state|] eqn:Hseed; [|rewrite Hseed; exact IH].
    assert (Hlive : exists rs, subject (state_shared c) = Some rs /\
                               hasError (state_shared c) = false).
    { destruct (subject (state_shared c)) as [rs|].
      - destruct (hasError (state_shared c)).
        + destruct IH as [_ IH]. discriminate IH. right; reflexivity.
        + eauto.
      - destruct IH as [_ IH]. discriminate IH. left; reflexivity. }
    destruct Hlive as (rs & Hrs & Herr).
    destruct (accumulator _ _ _) as [cs [state'|e]].
    + unfold share_next. rewrite Hrs, Herr.
      destruct (fanout _ _ _) as [vs evs]; simpl.
      split; [discriminate | intros [H|H]; discriminate].
    + unfold share_error. rewrite Hrs.
      destruct (fanout _ _ _) as [vs evs]; simpl.
      split; [right; reflexivity | reflexivity].
  - unfold getState. destruct (Boolean _); simpl; exact IH.
  - assert (Hstate : forall s c0,
              stateUpdate_seed c0 = stateUpdate_seed c ->
              state_shared c0 = state_shared c ->
              stateUpdate_seed (fst (subscribe_state s c0)) = None <->
              (subject (state_shared (fst (subscribe_state s c0))) = None \/
               hasError (state_shared (fst (subscribe_state s c0))) = true)).
    { intros s c0 H1 H2. unfold subscribe_state, share_subscribe.
      rewrite H1, H2.
      destruct (subject (state_shared c)) as [rs|]; simpl.
      - destruct (hasError (state_shared c)) eqn:Herr; simpl.
        + split; [discriminate | intros [H|H]; discriminate].
        + rewrite IH. split; [intros [H|H]; discriminate
                             | intros [H|H]; discriminate].
      - split; [discriminate | intros [H|H]; discriminate]. }
    destruct h as [|i]; simpl.
    + specialize (Hstate (ToObserver o) c eq_refl eq_refl).
      destruct (subscribe_state (ToObserver o) c) as [c' b]; simpl in *.
      exact Hstate.
    + destruct (nth_error (views c) i) as [vw|]; [|exact IH].
      destruct (share_subscribe (shared vw) o) as [[sh connect] b].
      destruct connect; [|simpl; exact IH].
      match goal with
      | |- context [subscribe_state ?s ?c0] =>
          specialize (Hstate s c0 eq_refl eq_refl);
          destruct (subscribe_state s c0) as [c1 snap]
      end.
      simpl in Hstate.
      destruct snap as [state|]; [|exact Hstate].
      destruct (view_notify _ _ _) as [vs evs]; simpl. exact Hstate.
Qed.

(** What a new subscription to [state$] finds and gets. *)
Lemma subscribe_full o c :
  seed_inv c ->
  subscriptions o c = 0 ->
  stateUpdate_seed (subscribe Full o c) = Some (current c) /\
  allocated (subscribe Full o c) = allocated c /\
  (exists rs, subject (state_shared (subscribe Full o c)) = Some rs /\
              count o (observers rs) = 1) /\
  received Full o (subscribe Full o c) =
    received Full o c ++
    match latest c with
    | Some state => [Next state]
    | None => []
    end.
Proof.
  unfold seed_inv, subscriptions, current, latest, received.
  intros Hinv Hcount.
  unfold subscribe, subscribe_state, share_subscribe.
  destruct (subject (state_shared c)) as [rs|] eqn:Hrs.
  - destruct (hasError (state_shared c)) eqn:Herr; simpl.
    + destruct Hinv as [_ Hinv]. rewrite Hinv by (right; reflexivity).
      split; [reflexivity|]. split; [reflexivity|]. split.
      * eexists; split; [reflexivity|]. simpl. rewrite Nat.eqb_refl. reflexivity.
      * rewrite notes_app. reflexivity.
    + destruct (stateUpdate_seed c) as [state|] eqn:Hseed.
      * split; [reflexivity|]. split; [reflexivity|]. split.
        -- eexists; split; [reflexivity|]. simpl.
           rewrite count_app, Hcount. simpl. rewrite Nat.eqb_refl. reflexivity.
        -- rewrite notes_app. f_equal.
           destruct (buffer rs); [|reflexivity].
           unfold notes; simpl. rewrite Nat.eqb_refl. reflexivity.
      * destruct Hinv as [Hinv _]. destruct (Hinv eq_refl); discriminate.
  - simpl. destruct Hinv as [_ Hinv]. rewrite Hinv by (left; reflexivity).
    split; [reflexivity|]. split; [reflexivity|]. split.
    + eexists; split; [reflexivity|]. simpl. rewrite Nat.eqb_refl. reflexivity.
    + rewrite notes_app. reflexivity.
Qed.

End Subscribing.

(* ================================================================== *)
(** * The full snapshot sequence *)
(* ================================================================== *)

Section FullState.

Import Examples.

(** C1, as the specification states it, fails: a subscriber of the full
    snapshot sequence that attaches before any update is not handed the
    initial state; it is handed nothing. *)
Lemma C1_initial_state_is_not_emitted :
  received Full 0 (subscribe Full 0 (setupState counter)) = [] /\
  hd_error (received Full 0 (subscribe Full 0 (setupState counter)))
  <> Some (Next counter).
Proof. vm_compute. split; [reflexivity | discriminate]. Qed.

(** C2, as the specification states it, fails: of two updates submitted in
    order, the first before anything is subscribed, only the second yields a
    snapshot, and that snapshot is not the left fold of both. *)
Lemma C2_update_before_subscription_is_lost :
  folded 0 counter [set_v; set_w] =
    Return (VObj (Snap 1) [("v", VNum 1); ("w", VNum 2)]) /\
  latest (setState set_v (setupState counter)) = None /\
  received Full 0
    (setState set_w (subscribe Full 0 (setState set_v (setupState counter)))) =
    [Next (VObj (Snap 0) [("v", VNum 0); ("w", VNum 2)])].
Proof. vm_compute. repeat split. Qed.

(** C2, amended: the fold covers the updates submitted while the pipeline
    is connected.  With a [scan] subscriber holding [state], for updates
    none of which throws: every call yields one snapshot; the N-th is the
    left fold of the shallow merge over the first N updates from [state];
    each goes, in order, to every subscription of the full sequence; an
    update function is called once, with the snapshot of the updates before
    it, a partial is not called.  An update submitted while nothing is
    subscribed to [stateUpdate$] is dropped. *)
Theorem C2_fold_of_connected_updates :
  forall c state rs updates final,
    stateUpdate_seed c = Some state ->
    subject (state_shared c) = Some rs ->
    folded (allocated c) state updates = Return final ->
    let snaps := snapshots (allocated c) state updates in
    List.length snaps = List.length updates /\
    (forall N, N < List.length updates ->
       exists sN, nth_error snaps N = Some sN /\
                  folded (allocated c) state (firstn (S N) updates) = Return sN) /\
    (forall o, received Full o (submit updates c) =
               received Full o c ++
               flat_map (fun sn => repeat (Next sn) (count o (observers rs)))
                 snaps) /\
    stateUpdate_seed (submit updates c) = Some final /\
    invoked (submit updates c) =
      invoked c ++ calls (allocated c) state updates /\
    (forall r s f, fst (accumulator r s (UpdateFunction f)) = [s]) /\
    (forall r s p, fst (accumulator r s (Partial p)) = []) /\
    (forall c0 u, stateUpdate_seed c0 = None -> setState u c0 = c0).
Proof.
  intros c state rs updates final Hseed Hrs Hfold snaps.
  pose proof (snapshots_length _ _ _ _ Hfold) as Hlen.
  destruct (submit_connected updates c state rs final Hseed Hrs Hfold)
    as (Hfinal & _ & _ & Hcalls & Hrun).
  split; [exact Hlen|].
  split.
  { intros N HN.
    destruct (nth_error snaps N) as [sN|] eqn:Hnth.
    - exists sN. split; [reflexivity|]. apply snapshots_nth. exact Hnth.
    - apply nth_error_None in Hnth. unfold snaps in Hnth. lia. }
  split; [exact Hrun|].
  split; [exact Hfinal|].
  split; [exact Hcalls|].
  split; [intros r s f; rewrite accumulator_function; reflexivity|].
  split; [exact accumulator_partial_calls|].
  intros c0 u. apply setState_unsubscribed.
Qed.

Lemma C2_fold_of_connected_updates_witness :
  received Full 0
    (submit [increment; increment; increment]
       (subscribe Full 0 (setupState counter))) =
  [Next (VObj (Snap 0) [("v", VNum 1)]);
   Next (VObj (Snap 1) [("v", VNum 2)]);
   Next (VObj (Snap 2) [("v", VNum 3)])].
Proof.
  pose proof (C2_fold_of_connected_updates
                (subscribe Full 0 (setupState counter)) counter
                (mkReplaySubject None [ToObserver 0])
                [increment; increment; increment]
                (VObj (Snap 2) [("v", VNum 3)])
                eq_refl eq_refl eq_refl) as H.
  exact (proj1 (proj2 (proj2 H)) 0).
Defined.

(** C5, as the specification states it, fails: after an update function
    has thrown, the observer that was subscribed gets the error and then
    nothing from the updates that follow, and no snapshot stays current. *)
Lemma C5_container_stops_after_throw :
  received Full 0
    (setState boom (setState increment (subscribe Full 0 (setupState counter)))) =
    [Next (VObj (Snap 0) [("v", VNum 1)]); Error (VStr "boom")] /\
  received Full 0
    (setState increment
       (setState boom
          (setState increment (subscribe Full 0 (setupState counter))))) =
    [Next (VObj (Snap 0) [("v", VNum 1)]); Error (VStr "boom")] /\
  latest
    (setState boom (setState increment (subscribe Full 0 (setupState counter))))
  = None.
Proof. vm_compute. repeat split. Qed.

(** C5, amended: when an update function throws while the pipeline is
    connected, [scan] catches the error.  No snapshot is published; every
    subscription of the full sequence is sent the error and nothing else,
    and every notification this call delivers is that error; the function
    has been called once; no snapshot is left for a late subscriber; the
    [scan] subscriber is gone, so the updates that follow are dropped; a
    new subscription starts the fold again from the initial state and is
    handed nothing. *)
Theorem C5_throwing_update_ends_the_stream :
  forall c state rs f e,
    stateUpdate_seed c = Some state ->
    subject (state_shared c) = Some rs ->
    f state = Throw e ->
    let c' := setState (UpdateFunction f) c in
    (forall o, received Full o c' =
               received Full o c ++ repeat (Error e) (count o (observers rs))) /\
    (exists evs, delivered c' = delivered c ++ evs /\
                 Forall (fun ev => what ev = Error e) evs) /\
    invoked c' = invoked c ++ [state] /\
    latest c' = None /\
    (forall updates, submit updates c' = c') /\
    (forall o, stateUpdate_seed (subscribe Full o c') = Some (initialState c) /\
               received Full o (subscribe Full o c') = received Full o c').
Proof.
  intros c state rs f e Hseed Hrs Hf c'.
  assert (Hacc : snd (accumulator (allocated c) state (UpdateFunction f)) =
                 Throw e).
  { rewrite accumulator_function. simpl. rewrite Hf. reflexivity. }
  pose proof (setState_throw _ c state e Hseed Hacc) as Hstep.
  fold c' in Hstep.
  assert (Hshare : share_error (state_shared c) =
                   (mkShareReplay (Some (mkReplaySubject (buffer rs) [])) true,
                    observers rs)).
  { unfold share_error. rewrite Hrs. reflexivity. }
  rewrite Hshare in Hstep. simpl in Hstep.
  split.
  { intros o. unfold received. rewrite Hstep; simpl.
    rewrite notes_app, fanout_full. reflexivity. }
  split.
  { eexists. split; [rewrite Hstep; reflexivity|]. apply fanout_error. }
  split.
  { rewrite Hstep; simpl. unfold bind; simpl. rewrite Hf. reflexivity. }
  split; [rewrite Hstep; reflexivity|].
  split.
  { intros updates. apply submit_unsubscribed. rewrite Hstep. reflexivity. }
  intros o. rewrite Hstep. unfold received. simpl.
  split; [reflexivity|]. rewrite app_nil_r. reflexivity.
Qed.

Lemma C5_throwing_update_ends_the_stream_witness :
  submit [increment; set_w]
    (setState boom (setState increment (subscribe Full 0 (setupState counter))))
  = setState boom (setState increment (subscribe Full 0 (setupState counter))).
Proof.
  pose proof (C5_throwing_update_ends_the_stream
                (setState increment (subscribe Full 0 (setupState counter)))
                (VObj (Snap 0) [("v", VNum 1)])
                (mkReplaySubject (Some (VObj (Snap 0) [("v", VNum 1)]))
                   [ToObserver 0])
                (fun _ => Throw (VStr "boom")) (VStr "boom")
                eq_refl eq_refl eq_refl) as H.
  exact (proj1 (proj2 (proj2 (proj2 (proj2 H)))) [increment; set_w]).
Defined.

End FullState.

(* ================================================================== *)
(** * The merge, [getState] and the path pipeline *)
(* ================================================================== *)

Section Selecting.

Import Examples.

(** C6: on [{a: {x: 1}, b: 2}] the partial [{a: {y: 2}}] gives
    [{a: {y: 2}, b: 2}]: [a] is replaced as a whole and [b] is kept.  In
    general a top-level field of the merged state is the partial's when the
    partial has it and the previous state's otherwise, and this merge is
    what the reducer computes for a partial. *)
Theorem C6_shallow_merge :
  received Full 0
    (setState replace_a (subscribe Full 0 (setupState nested))) =
    [Next (VObj (Snap 0) [("a", obj 3 [("y", VNum 2)]); ("b", VNum 2)])] /\
  (forall r state partial k,
     get (spread2 r state partial) k =
     match lookup k (ownProps partial) with
     | Some v => v
     | None => get state k
     end) /\
  (forall r state ref props,
     snd (accumulator r state (Partial (VObj ref props))) =
     if Boolean (get (VObj ref props) "apply")
     then Throw TypeError
     else Return (spread2 (Snap r) state (VObj ref props))).
Proof.
  split; [vm_compute; reflexivity|].
  split; [exact get_spread2 | exact accumulator_partial_object].
Qed.

(** C7: [getState()] builds nothing and returns [state$] itself, so what
    its subscribers are handed is the snapshot sequence: every snapshot the
    reducer produces, whatever it is, once per subscription, with no
    comparison with the one before and no filter.  Two updates
    [state => state] in a row give two snapshots with the same fields, and
    both are delivered. *)
Theorem C7_empty_path_is_the_snapshot_sequence :
  (forall c, getState [] c = (Full, c)) /\
  (forall c o u state state' rs,
     stateUpdate_seed c = Some state ->
     subject (state_shared c) = Some rs ->
     snd (accumulator (allocated c) state u) = Return state' ->
     received (fst (getState [] c)) o (setState u c) =
     received (fst (getState [] c)) o c ++
     repeat (Next state') (count o (observers rs))) /\
  received (fst (getState [] (setupState counter))) 0
    (submit [same; same]
       (subscribe (fst (getState [] (setupState counter))) 0
          (setupState counter))) =
    [Next (VObj (Snap 0) [("v", VNum 0)]);
     Next (VObj (Snap 1) [("v", VNum 0)])].
Proof.
  split; [reflexivity|].
  split; [|vm_compute; reflexivity].
  intros c o u state state' rs Hseed Hrs Hacc. simpl.
  unfold received. rewrite (setState_return u c state state' Hseed Hacc). simpl.
  rewrite notes_app, fanout_full. unfold share_next. rewrite Hrs. reflexivity.
Qed.

Lemma C7_empty_path_is_the_snapshot_sequence_witness :
  received Full 0 (setState same (subscribe Full 0 (setupState counter))) =
  [Next (VObj (Snap 0) [("v", VNum 0)])].
Proof.
  exact (proj1 (proj2 C7_empty_path_is_the_snapshot_sequence)
           (subscribe Full 0 (setupState counter)) 0 same counter
           (VObj (Snap 0) [("v", VNum 0)])
           (mkReplaySubject None [ToObserver 0])
           eq_refl eq_refl eq_refl).
Defined.

(** C3 on the code: two calls [getState('a')] return two pipelines.  After
    [a] went from [1] to [null], a new observer of the second pipeline is
    handed nothing, a new observer of the first is handed [1], the value
    that last passed; so the views of one path are neither one computation
    nor equivalent. *)
Lemma C3_same_path_views_are_separate :
  let c0 := snd (getState ["a"] (setupState has_a)) in
  let c1 := submit [a_is 1 (VNum 1); a_is 2 VNull] (subscribe (View 0) 1 c0) in
  fst (getState ["a"] (setupState has_a)) = View 0 /\
  fst (getState ["a"] c1) = View 1 /\
  received (View 1) 2 (subscribe (View 1) 2 (snd (getState ["a"] c1))) = [] /\
  received (View 0) 3 (subscribe (View 0) 3 (snd (getState ["a"] c1))) =
    [Next (VNum 1)].
Proof. vm_compute. repeat split. Qed.

(** C9 on the code: for a state type with a field [apply], the partial
    [{apply: 1}] is taken for a function; calling it raises a [TypeError]
    inside the reducer, the update is not merged and the snapshot sequence
    ends with that error. *)
Lemma C9_partial_with_apply_field_fails :
  snd (isFunction set_apply) = Return true /\
  snd (accumulator 0 with_apply set_apply) = Throw TypeError /\
  received Full 0
    (setState set_apply (subscribe Full 0 (setupState with_apply))) =
    [Error TypeError] /\
  stateUpdate_seed
    (setState set_apply (subscribe Full 0 (setupState with_apply))) = None.
Proof. vm_compute. repeat split. Qed.

(** C10: the filter holds back [null] and [undefined] and nothing else;
    [0], the empty string and [false] pass.  A value that passed
    [distinctUntilChanged] and is neither [null] nor [undefined] goes to
    every observer of the view. *)
Theorem C10_filter_drops_only_null_and_undefined :
  (forall v, present v = false <-> v = VNull \/ v = VUndefined) /\
  present (VNum 0) = true /\
  present (VStr "") = true /\
  present (VBool false) = true /\
  (forall i vw state rs,
     subject (shared vw) = Some rs ->
     suppressed vw state = false ->
     present (plucker (path vw) state) = true ->
     snd (view_next i vw state) =
     map (fun o => mkEvent (View i) o (Next (plucker (path vw) state)))
       (observers rs)) /\
  received (View 0) 1
    (submit [a_is 1 (VNum 0); a_is 2 VNull; a_is 3 (VStr "");
             a_is 4 VUndefined; a_is 5 (VBool false)]
       (subscribe (View 0) 1 (snd (getState ["a"] (setupState has_a))))) =
    [Next (VNum 0); Next (VStr ""); Next (VBool false)].
Proof.
  split.
  { intros v. split.
    - destruct v; simpl; try discriminate; auto.
    - intros [->| ->]; reflexivity. }
  split; [reflexivity|]. split; [reflexivity|]. split; [reflexivity|].
  split; [|vm_compute; reflexivity].
  intros i vw state rs Hrs Hsup Hpresent.
  unfold suppressed in Hsup. unfold view_next.
  destruct (distinctUntilChanged _ _) as [key' passed]; simpl in Hsup.
  apply Bool.negb_false_iff in Hsup. subst passed.
  rewrite Hpresent. simpl.
  unfold share_next. rewrite Hrs. reflexivity.
Qed.

Lemma C10_filter_drops_only_null_and_undefined_witness :
  snd (view_next 0
         (mkView ["a"] None
            (mkShareReplay (Some (mkReplaySubject None [7])) false))
         (obj 1 [("a", VNum 0)])) =
  [mkEvent (View 0) 7 (Next (VNum 0))].
Proof.
  exact (proj1 (proj2 (proj2 (proj2 (proj2
           C10_filter_drops_only_null_and_undefined))))
           0 (mkView ["a"] None
                (mkShareReplay (Some (mkReplaySubject None [7])) false))
           (obj 1 [("a", VNum 0)]) (mkReplaySubject None [7])
           eq_refl eq_refl eq_refl).
Defined.

End Selecting.

(* ================================================================== *)
(** * The distinct-change stage *)
(* ================================================================== *)

Section Distinct.

Import Examples.

Lemma ref_eqb_eq a b : ref_eqb a b = true <-> a = b.
Proof.
  destruct a as [n|n], b as [m|m]; simpl.
  - rewrite Nat.eqb_eq. split; [intros ->; reflexivity | intros [= ->]; reflexivity].
  - split; [discriminate | intros [=]].
  - split; [discriminate | intros [=]].
  - rewrite Nat.eqb_eq. split; [intros ->; reflexivity | intros [= ->]; reflexivity].
Qed.

Lemma strict_eq_refl x : strict_eq x x = true.
Proof.
  destruct x as [| |b|n|s|r props]; simpl; try reflexivity.
  - destruct b; reflexivity.
  - apply Z.eqb_refl.
  - apply String.eqb_refl.
  - apply ref_eqb_eq. reflexivity.
Qed.

(** [===] is an equivalence on these values: what equals [a] compares
    with anything as [a] does. *)
Lemma strict_eq_left k a b :
  strict_eq k a = true -> strict_eq k b = strict_eq a b.
Proof.
  destruct k as [| |x|x|x|x px], a as [| |y|y|y|y py]; simpl;
    try discriminate; try reflexivity; intros H.
  - apply Bool.eqb_prop in H. subst. reflexivity.
  - apply Z.eqb_eq in H. subst. reflexivity.
  - apply String.eqb_eq in H. subst. reflexivity.
  - apply ref_eqb_eq in H. subst. destruct b; reflexivity.
Qed.

Lemma view_next_path i vw state : path (fst (view_next i vw state)) = path vw.
Proof.
  unfold view_next.
  destruct (distinctUntilChanged _ _) as [key' passed].
  destruct (passed && present _); [|reflexivity].
  destruct (share_next _ _); reflexivity.
Qed.

Lemma view_next_key i vw state :
  key (fst (view_next i vw state)) =
  fst (distinctUntilChanged (key vw) (plucker (path vw) state)).
Proof.
  unfold view_next.
  destruct (distinctUntilChanged _ _) as [key' passed].
  destruct (passed && present _); [|reflexivity].
  destruct (share_next _ _); reflexivity.
Qed.

Lemma feed_path i states : forall vw, path (feed i vw states) = path vw.
Proof.
  unfold feed. induction states as [|s rest IH]; intros vw; simpl.
  - reflexivity.
  - rewrite IH. apply view_next_path.
Qed.

Lemma feed_snoc i vw states state :
  feed i vw (states ++ [state]) = fst (view_next i (feed i vw states) state).
Proof. unfold feed. rewrite fold_left_app. reflexivity. Qed.

(** After a candidate has gone through, the key equals it. *)
Lemma distinct_key_tracks key x :
  exists k, fst (distinctUntilChanged key x) = Some k /\ strict_eq k x = true.
Proof.
  unfold distinctUntilChanged. destruct key as [k|].
  - destruct (strict_eq k x) eqn:Hk; simpl; eauto using strict_eq_refl.
  - simpl. eauto using strict_eq_refl.
Qed.

(** C4, as the specification states it, fails: the candidates [1], [null],
    [1] give the observers [1] and [1].  When the third candidate arrives
    the value last handed to the observers is [1], and it equals the
    candidate, yet the distinct-change stage lets it pass: the stage
    compares with [null], which passed it and was then filtered out. *)
Lemma C4_repeat_after_null_passes :
  received (View 0) 1
    (submit [a_is 1 (VNum 1); a_is 2 VNull; a_is 3 (VNum 1)]
       (subscribe (View 0) 1 (snd (getState ["a"] (setupState has_a))))) =
    [Next (VNum 1); Next (VNum 1)] /\
  match nth_error
          (views
             (submit [a_is 1 (VNum 1); a_is 2 VNull]
                (subscribe (View 0) 1
                   (snd (getState ["a"] (setupState has_a)))))) 0
  with
  | Some vw =>
      last_emitted vw = Some (VNum 1) /\
      strict_eq (VNum 1) (plucker (path vw) (obj 9 [("a", VNum 1)])) = true /\
      suppressed vw (obj 9 [("a", VNum 1)]) = false
  | None => False
  end.
Proof. vm_compute. repeat split. Qed.

End Distinct.

(* ================================================================== *)
(** * What a path view delivers *)
(* ================================================================== *)

Section Presence.

Lemma Forall_replace_nth {A} (P : A -> Prop) (a : A) l : forall i,
  Forall P l -> P a -> Forall P (replace_nth i a l).
Proof.
  induction l as [|x rest IH]; intros i Hl Ha; simpl.
  - destruct i; constructor.
  - inversion Hl; subst. destruct i; constructor; auto.
Qed.

Lemma Forall_nth_error {A} (P : A -> Prop) l i a :
  Forall P l -> nth_error l i = Some a -> P a.
Proof.
  intros Hl Hi. rewrite Forall_forall in Hl. apply Hl.
  eapply nth_error_In; eassumption.
Qed.

Lemma view_next_present i vw state :
  buffer_present vw ->
  buffer_present (fst (view_next i vw state)) /\
  Forall value_event (snd (view_next i vw state)).
Proof.
  unfold buffer_present, last_emitted, view_next. intros Hvw.
  destruct (distinctUntilChanged _ _) as [key' passed].
  destruct (passed && present _) eqn:Hpass; simpl; [|split; [exact Hvw|constructor]].
  apply Bool.andb_true_iff in Hpass as [_ Hpresent].
  unfold share_next. destruct (subject (shared vw)) as [rs|] eqn:Hrs; simpl.
  - split.
    + intros v [= <-]. exact Hpresent.
    + apply Forall_map_mk. intros o. exact Hpresent.
  - rewrite Hrs. split; [discriminate | constructor].
Qed.

Lemma view_error_present i vw e :
  buffer_present vw ->
  buffer_present (fst (view_error i vw e)) /\
  Forall value_event (snd (view_error i vw e)).
Proof.
  unfold buffer_present, last_emitted, view_error, share_error. intros Hvw.
  destruct (subject (shared vw)) as [rs|] eqn:Hrs; simpl.
  - split; [exact Hvw|]. apply Forall_map_mk. intros o. exact I.
  - split; [discriminate | constructor].
Qed.

Lemma view_notify_present i n vs :
  Forall buffer_present vs ->
  Forall buffer_present (fst (view_notify i n vs)) /\
  Forall value_event (snd (view_notify i n vs)).
Proof.
  intros Hvs. unfold view_notify.
  destruct (nth_error vs i) as [vw|] eqn:Hi; [|split; [exact Hvs|constructor]].
  pose proof (Forall_nth_error _ _ _ _ Hvs Hi) as Hvw.
  destruct n as [state|e].
  - destruct (view_next_present i vw state Hvw) as [H1 H2].
    destruct (view_next i vw state) as [vw' evs]; simpl in *.
    split; [apply Forall_replace_nth; assumption | assumption].
  - destruct (view_error_present i vw e Hvw) as [H1 H2].
    destruct (view_error i vw e) as [vw' evs]; simpl in *.
    split; [apply Forall_replace_nth; assumption | assumption].
Qed.

Lemma fanout_present n sinks : forall vs,
  Forall buffer_present vs ->
  Forall buffer_present (fst (fanout n sinks vs)) /\
  Forall value_event (snd (fanout n sinks vs)).
Proof.
  induction sinks as [|[o|i] rest IH]; intros vs Hvs; simpl.
  - split; [exact Hvs | constructor].
  - destruct (IH vs Hvs) as [H1 H2].
    destruct (fanout n rest vs) as [vs' evs]; simpl in *.
    split; [exact H1|]. constructor; [exact I | exact H2].
  - destruct (view_notify_present i n vs Hvs) as [H1 H2].
    destruct (view_notify i n vs) as [vs1 evs1]; simpl in *.
    destruct (IH vs1 H1) as [H3 H4].
    destruct (fanout n rest vs1) as [vs2 evs2]; simpl in *.
    split; [exact H3|]. apply Forall_app; split; assumption.
Qed.

Lemma subscribe_state_frame s c :
  views (fst (subscribe_state s c)) = views c /\
  delivered (fst (subscribe_state s c)) = delivered c /\
  initialState (fst (subscribe_state s c)) = initialState c.
Proof.
  unfold subscribe_state.
  destruct (share_subscribe (state_shared c) s) as [[sh connect] b].
  simpl. auto.
Qed.

Lemma share_subscribe_buffer {S} (sh : ShareReplay S) (s : S) :
  let '(sh', connect, b) := share_subscribe sh s in
  (exists rs', subject sh' = Some rs' /\
     (if connect then buffer rs' = None
      else b = buffer rs' /\
           exists rs, subject sh = Some rs /\ buffer rs = buffer rs' /\
                      hasError sh = false)) /\
  hasError sh' = false /\
  (connect = true -> b = None).
Proof.
  unfold share_subscribe.
  destruct (subject sh) as [rs|] eqn:Hrs.
  - destruct (hasError sh) eqn:Herr.
    + split; [eexists; split; reflexivity | split; auto].
    + split; [|split; [reflexivity | discriminate]].
      eexists; split; [reflexivity|]. split; [reflexivity|].
      exists rs. auto.
  - split; [eexists; split; reflexivity | split; auto].
Qed.

Lemma present_inv_reachable P init c : reachable P init c -> present_inv c.
Proof.
  unfold present_inv.
  induction 1 as [|c u Hc [IHd IHv] Hu|c p Hc [IHd IHv]|c h o Hc [IHd IHv]].
  - simpl. split; constructor.
  - unfold setState. destruct (stateUpdate_seed c) as [state|]; [|auto].
    destruct (accumulator _ _ _) as [cs [state'|e]].
    + destruct (share_next _ _) as [sh sinks].
      destruct (fanout_present (Next state') sinks (views c) IHv) as [H1 H2].
      destruct (fanout _ _ _) as [vs evs]; simpl in *.
      split; [apply Forall_app; split; assumption | assumption].
    + destruct (share_error _) as [sh sinks].
      destruct (fanout_present (Error e) sinks (views c) IHv) as [H1 H2].
      destruct (fanout _ _ _) as [vs evs]; simpl in *.
      split; [apply Forall_app; split; assumption | assumption].
  - unfold getState. destruct (Boolean _); simpl; [|auto].
    split; [assumption|]. apply Forall_app; split; [assumption|].
    constructor; [|constructor]. intros v. discriminate.
  - destruct h as [|i]; simpl.
    + destruct (subscribe_state_frame (ToObserver o) c) as (Hv & Hd & _).
      destruct (subscribe_state (ToObserver o) c) as [c' b]; simpl in *.
      rewrite Hv, Hd. split; [|assumption].
      apply Forall_app; split; [assumption|].
      destruct b; simpl; constructor; [exact I | constructor].
    + destruct (nth_error (views c) i) as [vw|] eqn:Hi; [|auto].
      pose proof (Forall_nth_error _ _ _ _ IHv Hi) as Hvw.
      pose proof (share_subscribe_buffer (shared vw) o) as Hshare.
      destruct (share_subscribe (shared vw) o) as [[sh connect] b].
      destruct Hshare as ((rs' & Hrs' & Hbuf) & _ & _).
      destruct connect.
      * assert (Hvs0 : Forall buffer_present
                  (replace_nth i (mkView (path vw) None sh) (views c))).
        { apply Forall_replace_nth; [assumption|].
          unfold buffer_present, last_emitted; simpl. rewrite Hrs', Hbuf.
          discriminate. }
        match goal with
        | |- context [subscribe_state ?s ?c0] =>
            destruct (subscribe_state_frame s c0) as (Hv & Hd & _);
            destruct (subscribe_state s c0) as [c1 snap]
        end.
        simpl in Hv, Hd.
        destruct snap as [state|]; [|rewrite Hv, Hd; auto].
        rewrite <- Hv in Hvs0.
        destruct (view_notify_present i (Next state) (views c1) Hvs0) as [H1 H2].
        destruct (view_notify _ _ _) as [vs evs]; simpl in *.
        rewrite Hd. split; [apply Forall_app; split; assumption | assumption].
      * simpl. destruct Hbuf as (-> & rs & Hrs & Hsame & _).
        split.
        -- apply Forall_app; split; [assumption|].
           destruct (buffer rs') as [v|] eqn:Hv; simpl; constructor; [|constructor].
           unfold value_event; simpl. apply Hvw.
           unfold last_emitted. rewrite Hrs. congruence.
        -- apply Forall_replace_nth; [assumption|].
           unfold buffer_present, last_emitted; simpl. rewrite Hrs'.
           intros v Hv. apply Hvw. unfold last_emitted. rewrite Hrs. congruence.
Qed.

End Presence.

(* ================================================================== *)
(** * A path that is never filled in *)
(* ================================================================== *)

Section Silence.

Variable errors : bool.
Variable p : list string.

Lemma replace_nth_paths vs : forall i vw vw',
  nth_error vs i = Some vw -> path vw' = path vw ->
  paths (replace_nth i vw' vs) = paths vs.
Proof.
  unfold paths.
  induction vs as [|x rest IH]; intros i vw vw' Hi Hp.
  - destruct i; discriminate.
  - destruct i as [|j]; simpl in *.
    + injection Hi as ->. rewrite Hp. reflexivity.
    + f_equal. eapply IH; eassumption.
Qed.

Lemma view_error_path i vw e : path (fst (view_error i vw e)) = path vw.
Proof. unfold view_error. destruct (share_error _); reflexivity. Qed.

Lemma view_notify_paths i n vs : paths (fst (view_notify i n vs)) = paths vs.
Proof.
  unfold view_notify. destruct (nth_error vs i) as [vw|] eqn:Hi; [|reflexivity].
  destruct n as [state|e].
  - pose proof (view_next_path i vw state) as Hp.
    destruct (view_next i vw state) as [vw' evs]; simpl in *.
    eapply replace_nth_paths; eassumption.
  - pose proof (view_error_path i vw e) as Hp.
    destruct (view_error i vw e) as [vw' evs]; simpl in *.
    eapply replace_nth_paths; eassumption.
Qed.

Lemma fanout_paths n sinks : forall vs,
  paths (fst (fanout n sinks vs)) = paths vs.
Proof.
  induction sinks as [|[o|i] rest IH]; intros vs; simpl; [reflexivity| |].
  - specialize (IH vs). destruct (fanout n rest vs); exact IH.
  - pose proof (view_notify_paths i n vs) as H1.
    destruct (view_notify i n vs) as [vs1 evs1]; simpl in *.
    specialize (IH vs1). destruct (fanout n rest vs1); simpl in *.
    congruence.
Qed.

(** A snapshot with nothing at [p] brings nothing out of a view on [p]. *)
Lemma view_notify_silent i state vs :
  present (plucker p state) = false ->
  Forall (nothing_emitted p) vs ->
  Forall (nothing_emitted p) (fst (view_notify i (Next state) vs)) /\
  Forall (quiet_event errors p (paths vs))
    (snd (view_notify i (Next state) vs)).
Proof.
  intros Habsent Hvs. unfold view_notify.
  destruct (nth_error vs i) as [vw|] eqn:Hi; [|split; [exact Hvs|constructor]].
  pose proof (Forall_nth_error _ _ _ _ Hvs Hi) as Hvw.
  pose proof (view_next_source i vw state) as Hsrc.
  assert (Hstep : nothing_emitted p (fst (view_next i vw state)) /\
                  (path vw = p -> snd (view_next i vw state) = [])).
  { unfold nothing_emitted, last_emitted, view_next in *.
    destruct (distinctUntilChanged _ _) as [key' passed].
    destruct (passed && present (plucker (path vw) state)) eqn:Hpass.
    - apply Bool.andb_true_iff in Hpass as [_ Hpresent].
      assert (Hne : path vw <> p)
        by (intros Heq; rewrite Heq in Hpresent; congruence).
      destruct (share_next _ _) as [sh targets]; simpl.
      split; intros; contradiction.
    - simpl. split; [exact Hvw | reflexivity]. }
  destruct Hstep as [Hq Hnone].
  destruct (view_next i vw state) as [vw' evs]; simpl in *.
  split; [apply Forall_replace_nth; assumption|].
  destruct (list_eq_dec string_dec (path vw) p) as [Heq|Hne].
  - rewrite (Hnone Heq). constructor.
  - eapply Forall_impl; [|exact Hsrc].
    intros ev Hev. unfold quiet_event. rewrite Hev.
    left. exists (path vw). split; [|exact Hne].
    unfold paths. rewrite nth_error_map, Hi. reflexivity.
Qed.

Lemma fanout_silent state sinks : forall vs,
  present (plucker p state) = false ->
  Forall (nothing_emitted p) vs ->
  Forall (nothing_emitted p) (fst (fanout (Next state) sinks vs)) /\
  Forall (quiet_event errors p (paths vs))
    (snd (fanout (Next state) sinks vs)).
Proof.
  induction sinks as [|[o|i] rest IH]; intros vs Habsent Hvs; simpl.
  - split; [exact Hvs | constructor].
  - destruct (IH vs Habsent Hvs) as [H1 H2].
    destruct (fanout _ rest vs) as [vs' evs]; simpl in *.
    split; [exact H1|]. constructor; [exact I | exact H2].
  - destruct (view_notify_silent i state vs Habsent Hvs) as [H1 H2].
    pose proof (view_notify_paths i (Next state) vs) as Hp.
    destruct (view_notify i (Next state) vs) as [vs1 evs1]; simpl in *.
    destruct (IH vs1 Habsent H1) as [H3 H4]. rewrite Hp in H4.
    destruct (fanout _ rest vs1) as [vs2 evs2]; simpl in *.
    split; [exact H3|]. apply Forall_app; split; assumption.
Qed.

(** An error leaves the views on [p] with nothing to replay. *)
Lemma fanout_error_silent e sinks : forall vs,
  Forall (nothing_emitted p) vs ->
  Forall (nothing_emitted p) (fst (fanout (Error e) sinks vs)).
Proof.
  induction sinks as [|[o|i] rest IH]; intros vs Hvs; simpl.
  - exact Hvs.
  - specialize (IH vs Hvs). destruct (fanout _ rest vs); exact IH.
  - assert (H1 : Forall (nothing_emitted p)
                   (fst (view_notify i (Error e) vs))).
    { unfold view_notify.
      destruct (nth_error vs i) as [vw|] eqn:Hi; [|exact Hvs].
      pose proof (Forall_nth_error _ _ _ _ Hvs Hi) as Hvw.
      unfold view_error, share_error.
      unfold nothing_emitted, last_emitted in Hvw.
      destruct (subject (shared vw)) as [rs|]; simpl;
        apply Forall_replace_nth; try assumption;
        unfold nothing_emitted, last_emitted; simpl; auto. }
    destruct (view_notify i (Error e) vs) as [vs1 evs1]; simpl in *.
    specialize (IH vs1 H1). destruct (fanout _ rest vs1); exact IH.
Qed.

Lemma quiet_event_grow ps q evs :
  Forall (quiet_event errors p ps) evs ->
  Forall (quiet_event errors p (ps ++ [q])) evs.
Proof.
  apply Forall_impl. intros ev. unfold quiet_event.
  destruct (source ev) as [|i]; [auto|].
  intros [(q' & Hq' & Hne)|Herr]; [left | right; exact Herr].
  exists q'. split; [|exact Hne].
  rewrite nth_error_app1; [exact Hq'|].
  apply nth_error_Some. congruence.
Qed.

(** The seed and the replayed snapshot after a subscription to [state$]. *)
Lemma subscribe_state_silent s c :
  silent_inv errors p c ->
  (forall state, stateUpdate_seed (fst (subscribe_state s c)) = Some state ->
                 present (plucker p state) = false) /\
  (forall state, latest (fst (subscribe_state s c)) = Some state ->
                 present (plucker p state) = false) /\
  (forall state, snd (subscribe_state s c) = Some state ->
                 present (plucker p state) = false).
Proof.
  intros (Hinit & Hseed & Hlatest & _ & _).
  unfold subscribe_state, latest in *.
  pose proof (share_subscribe_buffer (state_shared c) s) as Hshare.
  destruct (share_subscribe (state_shared c) s) as [[sh connect] b].
  destruct Hshare as ((rs' & Hrs' & Hbuf) & Herr' & Hb). simpl.
  rewrite Hrs', Herr'.
  destruct connect.
  - rewrite Hbuf, (Hb eq_refl).
    split; [intros state [= <-]; exact Hinit|].
    split; discriminate.
  - destruct Hbuf as (-> & rs & Hrs & Hsame & Herr).
    rewrite Hrs, Herr, Hsame in Hlatest.
    split; [exact Hseed|]. split; exact Hlatest.
Qed.

Lemma silent_inv_run init c :
  present (plucker p init) = false ->
  run (keeps_empty errors p) init c ->
  silent_inv errors p c.
Proof.
  intros Hinit.
  induction 1 as [|c u Hc IH Hu|c q Hc IH|c h o Hc IH].
  - unfold silent_inv; simpl.
    split; [exact Hinit|]. split; [discriminate|]. split; [discriminate|].
    split; constructor.
  - destruct (stateUpdate_seed c) as [state|] eqn:Hseed;
      [|rewrite setState_unsubscribed by assumption; exact IH].
    destruct IH as (H1 & H2 & H3 & H4 & H5).
    specialize (Hu state Hseed).
    destruct (snd (accumulator (allocated c) state u)) as [state'|e] eqn:Hacc.
    + destruct Hu as [_ Hab].
      rewrite (setState_return u c state state' Hseed Hacc).
      destruct (fanout_silent state'
                  (snd (share_next (state_shared c) state')) (views c) Hab H4)
        as [H6 H7].
      unfold silent_inv; simpl.
      split; [exact H1|].
      split; [intros ? [= <-]; exact Hab|].
      split.
      { unfold latest in *. unfold share_next.
        destruct (subject (state_shared c)) as [rs|] eqn:Hsub; simpl.
        - destruct (hasError (state_shared c)); [discriminate|].
          intros ? [= <-]. exact Hab.
        - rewrite Hsub. discriminate. }
      split; [exact H6|].
      rewrite fanout_paths. apply Forall_app; split; assumption.
    + pose proof Hu as Herrors.
      rewrite (setState_throw u c state e Hseed Hacc).
      unfold silent_inv; simpl.
      split; [exact H1|]. split; [discriminate|].
      split.
      { unfold latest, share_error.
        destruct (subject (state_shared c)); simpl; discriminate. }
      split; [apply fanout_error_silent; exact H4|].
      rewrite fanout_paths. apply Forall_app; split; [exact H5|].
      eapply Forall_impl; [|apply fanout_error].
      intros ev Hev. unfold quiet_event.
      destruct (source ev); [exact I|]. right.
      split; [exact Herrors | exists e; exact Hev].
  - destruct IH as (H1 & H2 & H3 & H4 & H5).
    unfold getState. destruct (Boolean _); simpl;
      [|unfold silent_inv; auto].
    unfold silent_inv; simpl.
    split; [exact H1|]. split; [exact H2|]. split; [exact H3|].
    split.
    + apply Forall_app; split; [exact H4|].
      constructor; [|constructor]. intros _. reflexivity.
    + unfold paths. rewrite map_app. simpl. apply quiet_event_grow. exact H5.
  - destruct h as [|i]; simpl.
    + destruct (subscribe_state_silent (ToObserver o) c IH) as (S2 & S3 & _).
      destruct IH as (H1 & H2 & H3 & H4 & H5).
      destruct (subscribe_state_frame (ToObserver o) c) as (Hv & Hd & Hi).
      destruct (subscribe_state (ToObserver o) c) as [c' b]; simpl in *.
      unfold silent_inv; simpl. rewrite Hv, Hd, Hi.
      split; [exact H1|]. split; [exact S2|]. split; [exact S3|].
      split; [exact H4|].
      apply Forall_app; split; [exact H5|].
      destruct b; simpl; constructor; [exact I | constructor].
    + destruct (nth_error (views c) i) as [vw|] eqn:Hnth; [|exact IH].
      pose proof (share_subscribe_buffer (shared vw) o) as Hshare.
      destruct (share_subscribe (shared vw) o) as [[sh connect] b].
      destruct Hshare as ((rs' & Hrs' & Hbuf) & _ & _).
      destruct connect.
      * set (c0 := with_views
                     (replace_nth i (mkView (path vw) None sh) (views c)) c).
        assert (Hp0 : paths (views c0) = paths (views c)).
        { simpl. eapply replace_nth_paths; [eassumption | reflexivity]. }
        assert (IH0 : silent_inv errors p c0).
        { destruct IH as (H1 & H2 & H3 & H4 & H5).
          unfold silent_inv. rewrite Hp0. simpl.
          split; [exact H1|]. split; [exact H2|]. split; [exact H3|].
          split; [|exact H5].
          apply Forall_replace_nth; [exact H4|].
          unfold nothing_emitted, last_emitted; simpl.
          rewrite Hrs', Hbuf. reflexivity. }
        destruct (subscribe_state_silent (ToView i) c0 IH0) as (S2 & S3 & S4).
        destruct IH0 as (H1 & H2 & H3 & H4 & H5).
        destruct (subscribe_state_frame (ToView i) c0) as (Hv & Hd & Hi).
        destruct (subscribe_state (ToView i) c0) as [c1 snap];
          simpl in S2, S3, S4, Hv, Hd, Hi.
        destruct snap as [state|].
        -- destruct (view_notify_silent i state (views c1) (S4 state eq_refl))
             as [H6 H7]; [rewrite Hv; exact H4|].
           pose proof (view_notify_paths i (Next state) (views c1)) as Hp1.
           destruct (view_notify i (Next state) (views c1)) as [vs evs];
             simpl in *.
           unfold silent_inv; simpl. rewrite Hi, Hd, Hp1, Hv.
           split; [exact H1|]. split; [exact S2|]. split; [exact S3|].
           split; [exact H6|].
           apply Forall_app; split; [exact H5|]. rewrite <- Hv. exact H7.
        -- unfold silent_inv. rewrite Hi, Hd, Hv.
           split; [exact H1|]. split; [exact S2|]. split; [exact S3|].
           split; [exact H4 | exact H5].
      * destruct IH as (H1 & H2 & H3 & H4 & H5).
        destruct Hbuf as (-> & rs & Hrs & Hsame & _).
        pose proof (Forall_nth_error _ _ _ _ H4 Hnth) as Hvw.
        unfold silent_inv; simpl.
        rewrite (replace_nth_paths (views c) i vw
                   (mkView (path vw) (key vw) sh) Hnth eq_refl).
        split; [exact H1|]. split; [exact H2|]. split; [exact H3|].
        split.
        -- apply Forall_replace_nth; [exact H4|].
           unfold nothing_emitted, last_emitted in *; simpl.
           rewrite Hrs'. rewrite Hrs in Hvw. intros Hp. rewrite <- Hsame. auto.
        -- apply Forall_app; split; [exact H5|].
           destruct (buffer rs') as [v|] eqn:Hv; simpl; constructor;
             [|constructor].
           unfold quiet_event; simpl. left. exists (path vw). split.
           ++ unfold paths. rewrite nth_error_map, Hnth. reflexivity.
           ++ intros Hp. unfold nothing_emitted, last_emitted in Hvw.
              rewrite Hrs in Hvw. specialize (Hvw Hp). congruence.
Qed.

End Silence.

(* ================================================================== *)
(** * Absence *)
(* ================================================================== *)

Section Absence.

Import Examples.

Lemma handle_eqb_eq a b : handle_eqb a b = true -> a = b.
Proof.
  destruct a as [|i], b as [|j]; simpl; try discriminate; [reflexivity|].
  intros H. apply Nat.eqb_eq in H. subst. reflexivity.
Qed.

Lemma filter_none {A} (f : A -> bool) l :
  (forall a, In a l -> f a = false) -> filter f l = [].
Proof.
  induction l as [|a rest IH]; simpl; intros H; [reflexivity|].
  rewrite (H a) by (left; reflexivity). apply IH. intros b Hb. apply H. auto.
Qed.

Lemma plucker_cons k rest x :
  plucker (k :: rest) x =
  match get x k with
  | VUndefined => VUndefined
  | v => plucker rest v
  end.
Proof.
  destruct x; try reflexivity.
  simpl. destruct (get _ k); reflexivity.
Qed.

(** What comes out of a view on [p] while [p] stays empty. *)
Lemma silent_view errors p c i vw o :
  silent_inv errors p c ->
  nth_error (views c) i = Some vw -> path vw = p ->
  (forall v, ~ In (Next v) (received (View i) o c)) /\
  (errors = false -> received (View i) o c = []).
Proof.
  intros (_ & _ & _ & _ & Hd) Hi Hp.
  rewrite Forall_forall in Hd.
  assert (Hev : forall ev, In ev (delivered c) -> source ev = View i ->
                  errors = true /\ exists e, what ev = Error e).
  { intros ev Hin Hsrc. specialize (Hd ev Hin).
    unfold quiet_event in Hd. rewrite Hsrc in Hd.
    destruct Hd as [(q & Hq & Hne)|Herr]; [|exact Herr].
    unfold paths in Hq. rewrite nth_error_map, Hi in Hq. simpl in Hq.
    congruence. }
  unfold received, notes. split.
  - intros v Hin.
    apply in_map_iff in Hin as (ev & Hwhat & Hin).
    apply filter_In in Hin as [Hin Hsel].
    apply Bool.andb_true_iff in Hsel as [Hsrc _].
    apply handle_eqb_eq in Hsrc.
    destruct (Hev ev Hin Hsrc) as (_ & e & He). congruence.
  - intros Hno. rewrite filter_none; [reflexivity|].
    intros ev Hin.
    destruct (handle_eqb (source ev) (View i)) eqn:Hsrc; [|reflexivity].
    apply handle_eqb_eq in Hsrc.
    destruct (Hev ev Hin Hsrc) as (Hyes & _). congruence.
Qed.




End Absence.

(* ================================================================== *)
(** * Delivery through one view *)
(* ================================================================== *)

Section ViewDelivery.

Lemma count_view_app i a b :
  count_view i (a ++ b) = count_view i a + count_view i b.
Proof.
  induction a as [|[o|j] rest IH]; simpl; [reflexivity|assumption|].
  destruct (Nat.eqb j i); simpl; rewrite IH; reflexivity.
Qed.

Lemma nth_error_replace_nth {A} (a : A) l : forall i j,
  nth_error (replace_nth i a l) j =
  if Nat.eqb i j
  then match nth_error l j with
       | Some _ => Some a
       | None => None
       end
  else nth_error l j.
Proof.
  induction l as [|x rest IH]; intros i j.
  - destruct i, j; simpl; try reflexivity.
    destruct (Nat.eqb i j); reflexivity.
  - destruct i as [|i], j as [|j]; simpl; try reflexivity.
    apply IH.
Qed.

Lemma replace_nth_length {A} (a : A) l : forall i,
  List.length (replace_nth i a l) = List.length l.
Proof.
  induction l as [|x rest IH]; intros i; destruct i; simpl; auto.
Qed.

Lemma view_notify_step i n vs :
  view_notify i n vs =
  match nth_error vs i with
  | None => (vs, [])
  | Some vw => (replace_nth i (fst (view_step i n vw)) vs,
                snd (view_step i n vw))
  end.
Proof.
  unfold view_notify, view_step.
  destruct (nth_error vs i) as [vw|]; [|reflexivity].
  destruct n as [state|e].
  - destruct (view_next i vw state); reflexivity.
  - destruct (view_error i vw e); reflexivity.
Qed.

Lemma view_step_source i n vw :
  Forall (fun ev => source ev = View i) (snd (view_step i n vw)).
Proof.
  destruct n; simpl; [apply view_next_source | apply view_error_source].
Qed.

Lemma notes_other_view i j o evs :
  j <> i ->
  Forall (fun ev => source ev = View j) evs -> notes (View i) o evs = [].
Proof.
  intros Hne. unfold notes.
  induction 1 as [|ev evs Hev _ IH]; simpl; [reflexivity|].
  rewrite Hev. simpl.
  destruct (Nat.eqb_spec j i); [contradiction|]. simpl. exact IH.
Qed.

Lemma view_notify_nth i n vs j :
  nth_error (fst (view_notify i n vs)) j =
  if Nat.eqb i j
  then option_map (fun vw => fst (view_step i n vw)) (nth_error vs j)
  else nth_error vs j.
Proof.
  rewrite view_notify_step.
  destruct (nth_error vs i) as [vw|] eqn:Hi; simpl.
  - rewrite nth_error_replace_nth.
    destruct (Nat.eqb_spec i j) as [<-|Hne]; [|reflexivity].
    rewrite Hi. reflexivity.
  - destruct (Nat.eqb_spec i j) as [<-|Hne]; [|reflexivity].
    rewrite Hi. reflexivity.
Qed.

(** A view that is not chained is left alone. *)
Lemma fanout_view_zero n j sinks : forall vs,
  count_view j sinks = 0 ->
  nth_error (fst (fanout n sinks vs)) j = nth_error vs j /\
  forall o, notes (View j) o (snd (fanout n sinks vs)) = [].
Proof.
  induction sinks as [|[o'|i] rest IH]; intros vs Hcount; simpl in *.
  - split; reflexivity.
  - destruct (IH vs Hcount) as [H1 H2].
    destruct (fanout n rest vs) as [vs' evs]; simpl in *.
    split; [exact H1|]. intros o. unfold notes in *. simpl. apply H2.
  - destruct (Nat.eqb_spec i j) as [->|Hne]; [discriminate|].
    pose proof (view_notify_nth i n vs j) as Hnth.
    pose proof (view_notify_source i n vs) as Hsrc.
    destruct (view_notify i n vs) as [vs1 evs1]; simpl in *.
    destruct (IH vs1 Hcount) as [H1 H2].
    destruct (fanout n rest vs1) as [vs2 evs2]; simpl in *.
    apply Nat.eqb_neq in Hne. rewrite Hne in Hnth.
    split; [congruence|].
    intros o. rewrite notes_app, H2, app_nil_r.
    apply notes_other_view with (j := i); [|exact Hsrc].
    apply Nat.eqb_neq. exact Hne.
Qed.

(** A view that is chained once takes one step. *)
Lemma fanout_view_one n j sinks : forall vs vw,
  count_view j sinks = 1 ->
  nth_error vs j = Some vw ->
  nth_error (fst (fanout n sinks vs)) j = Some (fst (view_step j n vw)) /\
  forall o, notes (View j) o (snd (fanout n sinks vs)) =
            notes (View j) o (snd (view_step j n vw)).
Proof.
  induction sinks as [|[o'|i] rest IH]; intros vs vw Hcount Hj; simpl in *.
  - discriminate.
  - destruct (IH vs vw Hcount Hj) as [H1 H2].
    destruct (fanout n rest vs) as [vs' evs]; simpl in *.
    split; [exact H1|]. intros o. unfold notes in *. simpl. apply H2.
  - pose proof (view_notify_nth i n vs j) as Hnth.
    pose proof (view_notify_source i n vs) as Hsrc.
    pose proof (view_notify_step i n vs) as Hstep.
    destruct (view_notify i n vs) as [vs1 evs1]; simpl in *.
    destruct (Nat.eqb_spec i j) as [->|Hne].
    + injection Hcount as Hcount.
      destruct (fanout_view_zero n j rest vs1 Hcount) as [H1 H2].
      destruct (fanout n rest vs1) as [vs2 evs2]; simpl in *.
      rewrite Hj in Hnth, Hstep. simpl in Hnth.
      injection Hstep as _ Hevs.
      split; [congruence|].
      intros o. rewrite notes_app, H2, app_nil_r, Hevs. reflexivity.
    + rewrite Hj in Hnth.
      destruct (IH vs1 vw Hcount Hnth) as [H1 H2].
      destruct (fanout n rest vs1) as [vs2 evs2]; simpl in *.
      split; [exact H1|].
      intros o. rewrite notes_app, H2.
      rewrite (notes_other_view j i o evs1); [reflexivity| |exact Hsrc].
      exact Hne.
Qed.

Lemma fanout_length n sinks : forall vs,
  List.length (fst (fanout n sinks vs)) = List.length vs.
Proof.
  induction sinks as [|[o|i] rest IH]; intros vs; simpl; [reflexivity| |].
  - specialize (IH vs). destruct (fanout n rest vs); exact IH.
  - pose proof (view_notify_step i n vs) as Hstep.
    destruct (view_notify i n vs) as [vs1 evs1].
    specialize (IH vs1). destruct (fanout n rest vs1); simpl in *.
    rewrite IH.
    destruct (nth_error vs i); injection Hstep as -> _;
      [apply replace_nth_length | reflexivity].
Qed.

Lemma view_next_live i vw state :
  view_live (fst (view_next i vw state)) = view_live vw.
Proof.
  unfold view_next, view_live.
  destruct (distinctUntilChanged _ _) as [key' passed].
  destruct (passed && present _); [|reflexivity].
  unfold share_next. destruct (subject (shared vw)) eqn:Hs; simpl;
    [reflexivity | rewrite Hs; reflexivity].
Qed.

Lemma view_error_live i vw e : view_live (fst (view_error i vw e)) = false.
Proof.
  unfold view_error, view_live, share_error.
  destruct (subject (shared vw)); reflexivity.
Qed.

(** What one step of a connected view hands to [o]. *)
Lemma view_next_notes i vw state vrs o :
  subject (shared vw) = Some vrs ->
  notes (View i) o (snd (view_next i vw state)) =
  if negb (suppressed vw state) && present (plucker (path vw) state)
  then repeat (Next (plucker (path vw) state)) (subscribed o (observers vrs))
  else [].
Proof.
  intros Hvrs. unfold view_next, suppressed.
  destruct (distinctUntilChanged _ _) as [key' passed]; simpl.
  rewrite Bool.negb_involutive.
  destruct (passed && present _); [|reflexivity].
  unfold share_next. rewrite Hvrs. simpl.
  unfold notes, subscribed.
  induction (observers vrs) as [|o' rest IH]; simpl; [reflexivity|].
  rewrite Nat.eqb_refl. simpl.
  rewrite (Nat.eqb_sym o' o).
  destruct (Nat.eqb o o'); simpl; rewrite IH; reflexivity.
Qed.

Lemma view_error_notes i vw e vrs o :
  subject (shared vw) = Some vrs ->
  notes (View i) o (snd (view_error i vw e)) =
  repeat (Error e) (subscribed o (observers vrs)).
Proof.
  intros Hvrs. unfold view_error, share_error. rewrite Hvrs. simpl.
  unfold notes, subscribed.
  induction (observers vrs) as [|o' rest IH]; simpl; [reflexivity|].
  rewrite Nat.eqb_refl. simpl.
  rewrite (Nat.eqb_sym o' o).
  destruct (Nat.eqb o o'); simpl; rewrite IH; reflexivity.
Qed.

End ViewDelivery.

(* ================================================================== *)
(** * How the views are chained onto [state$] *)
(* ================================================================== *)

Section Chaining.

Lemma live_at_replace vs i vw vw' j :
  nth_error vs i = Some vw ->
  live_at (replace_nth i vw' vs) j =
  if Nat.eqb i j then view_live vw' else live_at vs j.
Proof.
  intros Hi. unfold live_at. rewrite nth_error_replace_nth.
  destruct (Nat.eqb_spec i j) as [<-|Hne]; [rewrite Hi|]; reflexivity.
Qed.

Lemma live_at_nth vs i :
  live_at vs i = true ->
  exists vw, nth_error vs i = Some vw /\ view_live vw = true.
Proof.
  unfold live_at. destruct (nth_error vs i) as [vw|]; [eauto | discriminate].
Qed.

Lemma fanout_live n sinks vs :
  (forall i, count_view i sinks = if live_at vs i then 1 else 0) ->
  forall i, live_at (fst (fanout n sinks vs)) i =
            match n with
            | Next _ => live_at vs i
            | Error _ => false
            end.
Proof.
  intros H i. specialize (H i).
  destruct (live_at vs i) eqn:Hl.
  - destruct (live_at_nth _ _ Hl) as (vw & Hvw & Hlive).
    destruct (fanout_view_one n i sinks vs vw H Hvw) as [Hn _].
    unfold live_at. rewrite Hn.
    destruct n; simpl;
      [rewrite view_next_live; exact Hlive | apply view_error_live].
  - destruct (fanout_view_zero n i sinks vs H) as [Hn _].
    unfold live_at in *. rewrite Hn, Hl. destruct n; reflexivity.
Qed.

Lemma live_at_grow vs vw i :
  view_live vw = false -> live_at (vs ++ [vw]) i = live_at vs i.
Proof.
  intros Hdead. unfold live_at.
  destruct (nth_error vs i) as [x|] eqn:Hi.
  - rewrite nth_error_app1 by (apply nth_error_Some; congruence).
    rewrite Hi. reflexivity.
  - apply nth_error_None in Hi. rewrite nth_error_app2 by exact Hi.
    destruct (i - List.length vs) as [|[|k]]; simpl; [exact Hdead| |]; reflexivity.
Qed.

(** A subscription to [state$] adds the subscriber and replays what
    [state$] holds. *)
Lemma subscribe_state_chain s c :
  (hasError (state_shared c) = true -> sinks c = []) ->
  sinks (fst (subscribe_state s c)) = sinks c ++ [s] /\
  latest (fst (subscribe_state s c)) = latest c /\
  snd (subscribe_state s c) = latest c /\
  hasError (state_shared (fst (subscribe_state s c))) = false.
Proof.
  unfold sinks, latest, subscribe_state, share_subscribe. intros Hclear.
  destruct (subject (state_shared c)) as [rs|] eqn:Hrs.
  - destruct (hasError (state_shared c)) eqn:Herr; simpl.
    + rewrite (Hclear eq_refl). auto.
    + auto.
  - simpl. auto.
Qed.

Lemma share_subscribe_fresh {S} (sh : ShareReplay S) (s : S) :
  subject sh = None \/ hasError sh = true ->
  share_subscribe sh s =
  (mkShareReplay (Some (mkReplaySubject None [s])) false, true, None).
Proof.
  unfold share_subscribe. intros [-> | Herr]; [reflexivity|].
  rewrite Herr. destruct (subject sh); reflexivity.
Qed.

Lemma share_subscribe_join {S} (sh : ShareReplay S) (s : S) rs :
  subject sh = Some rs -> hasError sh = false ->
  share_subscribe sh s =
  (mkShareReplay (Some (mkReplaySubject (buffer rs) (observers rs ++ [s])))
     false, false, buffer rs).
Proof. unfold share_subscribe. intros -> ->. reflexivity. Qed.

Lemma chain_inv_reachable P init c : reachable P init c -> chain_inv c.
Proof.
  induction 1 as [|c u Hc IH Hu|c q Hc IH|c h o Hc IH].
  - unfold chain_inv, sinks, latest; simpl.
    split; [discriminate|]. split.
    + intros i. unfold live_at. destruct i; reflexivity.
    + intros i vw Hi. destruct i; discriminate.
  - destruct (stateUpdate_seed c) as [state|] eqn:Hseed;
      [|rewrite setState_unsubscribed by assumption; exact IH].
    pose proof (seed_inv_reachable _ _ _ Hc) as Hsi. unfold seed_inv in Hsi.
    destruct (subject (state_shared c)) as [rs|] eqn:Hrs;
      [|destruct Hsi as [_ Hsi]; rewrite Hsi in Hseed by (left; reflexivity);
        discriminate].
    destruct (hasError (state_shared c)) eqn:Herr;
      [destruct Hsi as [_ Hsi]; rewrite Hsi in Hseed by (right; reflexivity);
       discriminate|].
    destruct IH as (IH1 & IH2 & IH3).
    assert (Hsinks : sinks c = observers rs) by (unfold sinks; rewrite Hrs; reflexivity).
    rewrite Hsinks in IH2.
    destruct (snd (accumulator (allocated c) state u)) as [state'|e] eqn:Hacc.
    + rewrite (setState_return u c state state' Hseed Hacc).
      unfold chain_inv, sinks, latest, share_next; rewrite Hrs, Herr; simpl.
      pose proof (fanout_live (Next state') (observers rs) (views c) IH2) as Hl.
      simpl in Hl.
      split; [discriminate|]. split.
      * intros i. rewrite Hl. apply IH2.
      * intros i vw' Hi Hlive.
        assert (Hli : live_at (views c) i = true).
        { rewrite <- Hl. unfold live_at. rewrite Hi. exact Hlive. }
        destruct (live_at_nth _ _ Hli) as (vw & Hvw & _).
        pose proof (IH2 i) as Hcount. rewrite Hli in Hcount.
        destruct (fanout_view_one (Next state') i (observers rs) (views c) vw
                    Hcount Hvw) as [Hn _].
        rewrite Hn in Hi. injection Hi as <-. simpl.
        rewrite view_next_key, view_next_path.
        apply distinct_key_tracks.
    + rewrite (setState_throw u c state e Hseed Hacc).
      unfold chain_inv, sinks, latest, share_error; rewrite Hrs; simpl.
      pose proof (fanout_live (Error e) (observers rs) (views c) IH2) as Hl.
      simpl in Hl.
      split; [reflexivity|]. split.
      * intros i. rewrite Hl. reflexivity.
      * intros i vw' Hi Hlive. specialize (Hl i).
        unfold live_at in Hl. rewrite Hi in Hl. congruence.
  - destruct IH as (IH1 & IH2 & IH3).
    unfold getState. destruct (Boolean _); simpl; [|split; [|split]; assumption].
    unfold chain_inv, sinks, latest in *; simpl.
    split; [exact IH1|]. split.
    + intros i. rewrite live_at_grow by reflexivity. apply IH2.
    + intros i vw Hi Hlive.
      apply (IH3 i); [|exact Hlive].
      destruct (nth_error (views c) i) as [x|] eqn:Hx.
      * rewrite nth_error_app1 in Hi by (apply nth_error_Some; congruence).
        congruence.
      * apply nth_error_None in Hx. rewrite nth_error_app2 in Hi by exact Hx.
        destruct (i - List.length (views c)) as [|[|k]]; simpl in Hi;
          try discriminate.
        injection Hi as <-. discriminate Hlive.
  - destruct IH as (IH1 & IH2 & IH3).
    destruct h as [|i]; simpl.
    + destruct (subscribe_state_chain (ToObserver o) c IH1)
        as (Hs & Hl & _ & He).
      destruct (subscribe_state_frame (ToObserver o) c) as (Hv & _ & _).
      destruct (subscribe_state (ToObserver o) c) as [c1 b]; simpl in *.
      unfold chain_inv. unfold sinks, latest in *. simpl.
      rewrite Hv, Hl.
      split; [rewrite He; discriminate|]. split; [|exact IH3].
      intros j. rewrite Hs, count_view_app. simpl. rewrite Nat.add_0_r.
      apply IH2.
    + destruct (nth_error (views c) i) as [vw|] eqn:Hi;
        [|split; [|split]; assumption].
      assert (Hcases :
        (view_live vw = false /\
         (subject (shared vw) = None \/ hasError (shared vw) = true)) \/
        (exists vrs, subject (shared vw) = Some vrs /\
                     hasError (shared vw) = false)).
      { unfold view_live. destruct (subject (shared vw)) as [vrs|].
        - destruct (hasError (shared vw)); [left | right]; eauto.
        - left. auto. }
      destruct Hcases as [[Hdead Hwhy]|(vrs & Hvrs & Hverr)].
      * (* the view is connected now *)
        rewrite (share_subscribe_fresh (shared vw) o Hwhy).
        set (vw0 := mkView (path vw) None
                      (mkShareReplay (Some (mkReplaySubject None [o])) false)).
        set (c0 := with_views (replace_nth i vw0 (views c)) c).
        destruct (subscribe_state_chain (ToView i) c0 IH1)
          as (Hs & Hl & Hsnap & He).
        destruct (subscribe_state_frame (ToView i) c0) as (Hv & _ & _).
        destruct (subscribe_state (ToView i) c0) as [c1 snap]; simpl in *.
        change (sinks c0) with (sinks c) in Hs.
        change (latest c0) with (latest c) in Hl, Hsnap.
        assert (Hcount : forall j, count_view j (sinks c1) =
                  if live_at (replace_nth i vw0 (views c)) j then 1 else 0).
        { intros j. rewrite Hs, count_view_app, IH2.
          rewrite (live_at_replace _ _ _ vw0 j Hi). simpl.
          destruct (Nat.eqb_spec i j) as [<-|Hne].
          - unfold live_at. rewrite Hi, Hdead. reflexivity.
          - rewrite Nat.add_0_r. reflexivity. }
        assert (Hkeys : forall j vw', j <> i ->
                  nth_error (replace_nth i vw0 (views c)) j = Some vw' ->
                  view_live vw' = true -> key_tracks vw' (latest c)).
        { intros j vw' Hne Hj. rewrite nth_error_replace_nth in Hj.
          destruct (Nat.eqb_spec i j); [congruence|]. eauto. }
        subst snap. destruct (latest c) as [state|] eqn:Hlat.
        -- pose proof (view_notify_nth i (Next state) (views c1)) as Hnth.
           destruct (view_notify i (Next state) (views c1)) as [vs evs] eqn:Hvn.
           simpl in Hnth. unfold chain_inv, sinks, latest in *. simpl.
           split; [rewrite He; discriminate|]. split.
           ++ intros j. rewrite Hcount. unfold live_at. rewrite Hnth, Hv.
              destruct (Nat.eqb_spec i j) as [<-|Hne]; [|reflexivity].
              destruct (nth_error (replace_nth i vw0 (views c)) i); simpl;
                [rewrite view_next_live|]; reflexivity.
           ++ intros j vw' Hj Hlive. rewrite Hl.
              rewrite Hnth, Hv in Hj.
              destruct (Nat.eqb_spec i j) as [<-|Hne].
              ** destruct (nth_error (replace_nth i vw0 (views c)) i);
                   [|discriminate].
                 simpl in Hj. injection Hj as <-. simpl.
                 rewrite view_next_key, view_next_path.
                 apply distinct_key_tracks.
              ** apply (Hkeys j); auto.
        -- unfold chain_inv, sinks, latest in *. rewrite Hv.
           split; [rewrite He; discriminate|]. split; [exact Hcount|].
           intros j vw' Hj Hlive. rewrite Hl.
           destruct (Nat.eqb_spec j i) as [->|Hne].
           ++ rewrite nth_error_replace_nth, Nat.eqb_refl, Hi in Hj.
              injection Hj as <-. reflexivity.
           ++ apply (Hkeys j); auto.
      * (* the view is connected already *)
        rewrite (share_subscribe_join (shared vw) o vrs Hvrs Hverr). simpl.
        unfold chain_inv, sinks, latest in *. simpl.
        assert (Hlive : view_live vw = true)
          by (unfold view_live; rewrite Hvrs, Hverr; reflexivity).
        split; [exact IH1|]. split.
        -- intros j. rewrite (live_at_replace _ _ _ _ j Hi).
           destruct (Nat.eqb_spec i j) as [<-|Hne]; [|apply IH2].
           rewrite IH2. unfold live_at. rewrite Hi, Hlive. reflexivity.
        -- intros j vw' Hj Hl'. rewrite nth_error_replace_nth in Hj.
           destruct (Nat.eqb_spec i j) as [<-|Hne]; [|eauto].
           rewrite Hi in Hj. injection Hj as <-.
           apply (IH3 i vw Hi Hlive).
Qed.

End Chaining.

(* ================================================================== *)
(** * The snapshot sequence and the connected views *)
(* ================================================================== *)

Section Connected.

Import Examples.

Lemma latest_seed_reachable P init c :
  reachable P init c ->
  forall state, latest c = Some state -> stateUpdate_seed c = Some state.
Proof.
  assert (Hsub : forall s c0,
            (forall state, latest c0 = Some state ->
                           stateUpdate_seed c0 = Some state) ->
            forall state, latest (fst (subscribe_state s c0)) = Some state ->
                          stateUpdate_seed (fst (subscribe_state s c0)) =
                          Some state).
  { intros s c0 H0. unfold latest, subscribe_state, share_subscribe in *.
    destruct (subject (state_shared c0)) as [rs|].
    - destruct (hasError (state_shared c0)); simpl; [discriminate | exact H0].
    - simpl. discriminate. }
  induction 1 as [|c u Hc IH Hu|c q Hc IH|c h o Hc IH].
  - discriminate.
  - destruct (stateUpdate_seed c) as [state|] eqn:Hseed;
      [|rewrite setState_unsubscribed by assumption; rewrite Hseed; exact IH].
    destruct (snd (accumulator (allocated c) state u)) as [state'|e] eqn:Hacc.
    + rewrite (setState_return u c state state' Hseed Hacc).
      unfold latest, share_next. simpl.
      destruct (subject (state_shared c)) as [rs|] eqn:Hrs; simpl.
      * destruct (hasError (state_shared c)); [discriminate|].
        intros ? [= <-]. reflexivity.
      * rewrite Hrs. discriminate.
    + rewrite (setState_throw u c state e Hseed Hacc).
      unfold latest, share_error. simpl.
      destruct (subject (state_shared c)); simpl; discriminate.
  - unfold getState. destruct (Boolean _); exact IH.
  - destruct h as [|i]; simpl.
    + specialize (Hsub (ToObserver o) c IH).
      destruct (subscribe_state (ToObserver o) c) as [c1 b]. exact Hsub.
    + destruct (nth_error (views c) i) as [vw|]; [|exact IH].
      destruct (share_subscribe (shared vw) o) as [[sh connect] b].
      destruct connect; [|exact IH].
      match goal with
      | |- context [subscribe_state ?s ?c0] =>
          specialize (Hsub s c0 IH);
          destruct (subscribe_state s c0) as [c1 snap]
      end.
      destruct snap as [state|]; [|exact Hsub].
      destruct (view_notify _ _ _) as [vs evs]. exact Hsub.
Qed.

(** A connected view sits on a connected [state$]. *)
Lemma live_view_connected P init c i vw :
  reachable P init c ->
  nth_error (views c) i = Some vw -> view_live vw = true ->
  exists rs,
    subject (state_shared c) = Some rs /\
    hasError (state_shared c) = false /\
    stateUpdate_seed c = Some (current c) /\
    count_view i (observers rs) = 1 /\
    key_tracks vw (latest c).
Proof.
  intros Hreach Hi Hlive.
  destruct (chain_inv_reachable _ _ _ Hreach) as (H1 & H2 & H3).
  pose proof (seed_inv_reachable _ _ _ Hreach) as Hsi.
  specialize (H2 i). unfold live_at in H2. rewrite Hi, Hlive in H2.
  unfold sinks, seed_inv, current in *.
  destruct (subject (state_shared c)) as [rs|]; [|discriminate].
  destruct (hasError (state_shared c)).
  - rewrite (H1 eq_refl) in H2. discriminate.
  - exists rs. split; [reflexivity|]. split; [reflexivity|].
    split; [|split; [exact H2 | exact (H3 i vw Hi Hlive)]].
    destruct (stateUpdate_seed c); [reflexivity|].
    destruct Hsi as [Hsi _]. destruct (Hsi eq_refl); discriminate.
Qed.

(** X1: on every container the interface can reach, the snapshot that
    [state$] holds for late subscribers is the state the reducer will merge
    the next update into: a replayed snapshot is never stale. *)
Theorem X1_replayed_snapshot_is_the_reducer_state :
  forall init c state,
    reachable any_update init c ->
    latest c = Some state ->
    stateUpdate_seed c = Some state.
Proof. intros init c state Hreach. apply (latest_seed_reachable _ _ _ Hreach). Qed.

Lemma X1_replayed_snapshot_is_the_reducer_state_witness :
  stateUpdate_seed
    (setState increment (subscribe Full 0 (setupState counter))) =
  Some (VObj (Snap 0) [("v", VNum 1)]).
Proof.
  refine (X1_replayed_snapshot_is_the_reducer_state counter
            (setState increment (subscribe Full 0 (setupState counter)))
            (VObj (Snap 0) [("v", VNum 1)]) _ eq_refl).
  apply reach_setState; [|exact I].
  apply reach_subscribe. apply reach_setup.
Defined.

(** X2: however many observers subscribe to the observable that one
    [getState(...path)] call returned, and whatever else happens, its
    operators are subscribed to [state$] exactly once while it is
    connected and not at all while it is not; a failed [state$] keeps no
    subscriber. *)
Theorem X2_view_is_chained_exactly_once :
  forall init c i vw,
    reachable any_update init c ->
    nth_error (views c) i = Some vw ->
    count_view i (sinks c) = (if view_live vw then 1 else 0) /\
    (hasError (state_shared c) = true -> sinks c = []).
Proof.
  intros init c i vw Hreach Hi.
  destruct (chain_inv_reachable _ _ _ Hreach) as (H1 & H2 & _).
  split; [|exact H1].
  specialize (H2 i). unfold live_at in H2. rewrite Hi in H2. exact H2.
Qed.

Lemma X2_view_is_chained_exactly_once_witness :
  count_view 0
    (sinks
       (subscribe (View 0) 3
          (setState (a_is 1 (VNum 5))
             (subscribe (View 0) 2
                (subscribe (View 0) 1
                   (snd (getState ["a"] (setupState has_a)))))))) = 1.
Proof.
  refine (proj1 (X2_view_is_chained_exactly_once has_a
            (subscribe (View 0) 3
               (setState (a_is 1 (VNum 5))
                  (subscribe (View 0) 2
                     (subscribe (View 0) 1
                        (snd (getState ["a"] (setupState has_a))))))) 0
            (mkView ["a"] (Some (VNum 5))
               (mkShareReplay
                  (Some (mkReplaySubject (Some (VNum 5)) [1; 2; 3])) false))
            _ eq_refl)).
  apply reach_subscribe. apply reach_setState; [|exact I].
  apply reach_subscribe. apply reach_subscribe.
  apply (reach_getState _ _ _ ["a"]). apply reach_setup.
Defined.

End Connected.

(* ================================================================== *)
(** * What the observers of a connected view are handed *)
(* ================================================================== *)

Section ViewTrace.

Import Examples.

Lemma view_next_observers i vw state :
  view_observers (fst (view_next i vw state)) = view_observers vw.
Proof.
  unfold view_next, view_observers.
  destruct (distinctUntilChanged _ _) as [key' passed].
  destruct (passed && present _); [|reflexivity].
  unfold share_next. destruct (subject (shared vw)) eqn:Hs; simpl;
    [reflexivity | rewrite Hs; reflexivity].
Qed.

Lemma view_live_subject vw :
  view_live vw = true ->
  exists vrs, subject (shared vw) = Some vrs /\
              view_observers vw = observers vrs.
Proof.
  unfold view_live, view_observers.
  destruct (subject (shared vw)) as [vrs|]; [eauto | discriminate].
Qed.

Lemma passes_tracks vw held state' :
  key_tracks vw held ->
  negb (suppressed vw state') =
  changed (path vw) held (plucker (path vw) state').
Proof.
  unfold key_tracks, suppressed, changed, distinctUntilChanged.
  destruct held as [state|].
  - intros (k & -> & Hk).
    rewrite <- (strict_eq_left k _ (plucker (path vw) state') Hk).
    destruct (strict_eq k (plucker (path vw) state')); reflexivity.
  - intros ->. reflexivity.
Qed.

(** One update that evaluates, seen from a connected view. *)
Lemma setState_view_return P init c i vw u state' :
  reachable P init c ->
  nth_error (views c) i = Some vw -> view_live vw = true ->
  snd (accumulator (allocated c) (current c) u) = Return state' ->
  nth_error (views (setState u c)) i = Some (fst (view_next i vw state')) /\
  allocated (setState u c) = S (allocated c) /\
  current (setState u c) = state' /\
  latest (setState u c) = Some state' /\
  forall o,
    received (View i) o (setState u c) =
    received (View i) o c ++
    if changed (path vw) (latest c) (plucker (path vw) state') &&
       present (plucker (path vw) state')
    then repeat (Next (plucker (path vw) state'))
           (subscribed o (view_observers vw))
    else [].
Proof.
  intros Hreach Hi Hlive Hacc.
  destruct (live_view_connected _ _ _ _ _ Hreach Hi Hlive)
    as (rs & Hrs & Herr & Hseed & Hcount & Htracks).
  destruct (view_live_subject vw Hlive) as (vrs & Hvrs & Hobs).
  rewrite (setState_return u c _ state' Hseed Hacc).
  unfold received, latest, current, share_next. rewrite Hrs, Herr. simpl.
  destruct (fanout_view_one (Next state') i (observers rs) (views c) vw
              Hcount Hi) as [Hn Hev].
  split; [exact Hn|]. split; [reflexivity|]. split; [reflexivity|].
  split; [reflexivity|].
  intros o. rewrite notes_app, Hev. simpl.
  rewrite (view_next_notes i vw state' vrs o Hvrs).
  rewrite (passes_tracks vw _ state' Htracks), Hobs.
  unfold latest. rewrite Hrs, Herr. reflexivity.
Qed.

(** X3: on a reachable container, an update that evaluates to [state']
    notifies the observers of a connected view exactly when the value at
    the view's path in [state'] is not [===] to the value there in the
    snapshot [state$] holds (or [state$] holds none yet) and is neither
    [null] nor [undefined]; they are then handed that value, once per
    subscription, and otherwise nothing. *)
Theorem X3_view_is_notified_exactly_on_change :
  forall init c i vw u state' o,
    reachable any_update init c ->
    nth_error (views c) i = Some vw ->
    view_live vw = true ->
    snd (accumulator (allocated c) (current c) u) = Return state' ->
    received (View i) o (setState u c) =
    received (View i) o c ++
    if changed (path vw) (latest c) (plucker (path vw) state') &&
       present (plucker (path vw) state')
    then repeat (Next (plucker (path vw) state'))
           (subscribed o (view_observers vw))
    else [].
Proof.
  intros init c i vw u state' o Hreach Hi Hlive Hacc.
  apply (setState_view_return _ _ _ _ _ _ _ Hreach Hi Hlive Hacc).
Qed.

Lemma X3_view_is_notified_exactly_on_change_witness :
  received (View 0) 1
    (setState same
       (setState (a_is 1 (VNum 5))
          (subscribe (View 0) 1 (snd (getState ["a"] (setupState has_a)))))) =
  [Next (VNum 5)].
Proof.
  refine (X3_view_is_notified_exactly_on_change has_a
            (setState (a_is 1 (VNum 5))
               (subscribe (View 0) 1
                  (snd (getState ["a"] (setupState has_a)))))
            0
            (mkView ["a"] (Some (VNum 5))
               (mkShareReplay (Some (mkReplaySubject (Some (VNum 5)) [1]))
                  false))
            same (VObj (Snap 1) [("a", VNum 5)]) 1 _ eq_refl eq_refl eq_refl).
  apply reach_setState; [|exact I].
  apply reach_subscribe.
  apply (reach_getState _ _ _ ["a"]). apply reach_setup.
Defined.

(** X4: on a reachable container, an update whose evaluation throws (an
    update function that throws, or a partial taken for a function) sends
    the error to every observer of every connected view, once per
    subscription and with no value, and leaves the view disconnected. *)
Theorem X4_throw_ends_every_connected_view :
  forall init c i vw u e o,
    reachable any_update init c ->
    nth_error (views c) i = Some vw ->
    view_live vw = true ->
    snd (accumulator (allocated c) (current c) u) = Throw e ->
    received (View i) o (setState u c) =
      received (View i) o c ++
      repeat (Error e) (subscribed o (view_observers vw)) /\
    live_at (views (setState u c)) i = false.
Proof.
  intros init c i vw u e o Hreach Hi Hlive Hacc.
  destruct (live_view_connected _ _ _ _ _ Hreach Hi Hlive)
    as (rs & Hrs & Herr & Hseed & Hcount & _).
  destruct (view_live_subject vw Hlive) as (vrs & Hvrs & Hobs).
  rewrite (setState_throw u c _ e Hseed Hacc).
  unfold received, share_error. rewrite Hrs. simpl.
  destruct (fanout_view_one (Error e) i (observers rs) (views c) vw
              Hcount Hi) as [Hn Hev].
  split.
  - rewrite notes_app, Hev. simpl.
    rewrite (view_error_notes i vw e vrs o Hvrs), Hobs. reflexivity.
  - unfold live_at. rewrite Hn. simpl. apply view_error_live.
Qed.

Lemma X4_throw_ends_every_connected_view_witness :
  received (View 0) 1
    (setState boom
       (setState (a_is 1 (VNum 5))
          (subscribe (View 0) 1 (snd (getState ["a"] (setupState has_a)))))) =
  [Next (VNum 5); Error (VStr "boom")].
Proof.
  refine (proj1 (X4_throw_ends_every_connected_view has_a
            (setState (a_is 1 (VNum 5))
               (subscribe (View 0) 1
                  (snd (getState ["a"] (setupState has_a)))))
            0
            (mkView ["a"] (Some (VNum 5))
               (mkShareReplay (Some (mkReplaySubject (Some (VNum 5)) [1]))
                  false))
            boom (VStr "boom") 1 _ eq_refl eq_refl eq_refl)).
  apply reach_setState; [|exact I].
  apply reach_subscribe.
  apply (reach_getState _ _ _ ["a"]). apply reach_setup.
Defined.

End ViewTrace.

(* ================================================================== *)
(** * A run of updates seen from a view; views that nobody subscribes *)
(* ================================================================== *)

Section Runs.

Import Examples.

Lemma distinct_run_equiv xs : forall a b,
  strict_eq a b = true ->
  distinct_run (Some a) xs = distinct_run (Some b) xs.
Proof.
  induction xs as [|x rest IH]; intros a b Hab; simpl; [reflexivity|].
  rewrite (strict_eq_left a b x Hab).
  destruct (strict_eq b x) eqn:Hb; simpl; [apply IH; exact Hab | reflexivity].
Qed.

Lemma distinct_run_step path held new cands :
  distinct_run (option_map (plucker path) held) (new :: cands) =
  (if changed path held new then [new] else []) ++
  distinct_run (Some new) cands.
Proof.
  unfold changed. destruct held as [state|]; simpl; [|reflexivity].
  destruct (strict_eq (plucker path state) new) eqn:Heq; simpl.
  - apply distinct_run_equiv. exact Heq.
  - reflexivity.
Qed.

Lemma submit_view_trace updates : forall init c i vw final o,
  reachable any_update init c ->
  nth_error (views c) i = Some vw ->
  view_live vw = true ->
  folded (allocated c) (current c) updates = Return final ->
  received (View i) o (submit updates c) =
  received (View i) o c ++
  flat_map (fun v => repeat (Next v) (subscribed o (view_observers vw)))
    (filter present
       (distinct_run (option_map (plucker (path vw)) (latest c))
          (map (plucker (path vw))
             (snapshots (allocated c) (current c) updates)))).
Proof.
  induction updates as [|u rest IH]; intros init c i vw final o Hreach Hi Hlive Hfold.
  - simpl. rewrite app_nil_r. reflexivity.
  - rewrite folded_cons in Hfold.
    destruct (snd (accumulator (allocated c) (current c) u)) as [state'|e]
      eqn:Hacc; [|discriminate].
    destruct (setState_view_return _ _ _ _ _ _ _ Hreach Hi Hlive Hacc)
      as (Hi1 & Halloc & Hcur & Hlat & Hrecv).
    change (submit (u :: rest) c) with (submit rest (setState u c)).
    assert (Hreach1 : reachable any_update init (setState u c))
      by (apply reach_setState; [exact Hreach | exact I]).
    rewrite <- Halloc, <- Hcur in Hfold.
    rewrite (IH init (setState u c) i _ final o Hreach1 Hi1
               (eq_trans (view_next_live i vw state') Hlive) Hfold).
    rewrite Hrecv, Hlat, Halloc, Hcur, view_next_path, view_next_observers.
    simpl snapshots. rewrite Hacc. simpl map.
    rewrite distinct_run_step, filter_app, flat_map_app, <- app_assoc.
    f_equal. f_equal.
    destruct (changed (path vw) (latest c) (plucker (path vw) state')); simpl;
      [|reflexivity].
    destruct (present (plucker (path vw) state')); simpl;
      [rewrite app_nil_r|]; reflexivity.
Qed.

(** X5: on a reachable container, over a run of updates none of which
    throws, the observers of a connected view are handed, once per
    subscription and in order, the values at the view's path in the
    successive snapshots, with the values [===] to the one just before
    dropped first (the comparison starting from the snapshot [state$]
    holds) and [null] and [undefined] dropped after that. *)
Theorem X5_view_trace_is_filter_of_distinct_of_pluck :
  forall init c i vw updates final o,
    reachable any_update init c ->
    nth_error (views c) i = Some vw ->
    view_live vw = true ->
    folded (allocated c) (current c) updates = Return final ->
    received (View i) o (submit updates c) =
    received (View i) o c ++
    flat_map (fun v => repeat (Next v) (subscribed o (view_observers vw)))
      (filter present
         (distinct_run (option_map (plucker (path vw)) (latest c))
            (map (plucker (path vw))
               (snapshots (allocated c) (current c) updates)))).
Proof.
  intros init c i vw updates final o. apply submit_view_trace.
Qed.

Lemma X5_view_trace_is_filter_of_distinct_of_pluck_witness :
  received (View 0) 1
    (submit [same; a_is 1 (VNum 2); a_is 2 (VNum 2); a_is 3 VNull;
             a_is 4 (VNum 2)]
       (subscribe (View 0) 1 (snd (getState ["a"] (setupState has_a))))) =
  [Next (VNum 1); Next (VNum 2); Next (VNum 2)].
Proof.
  refine (X5_view_trace_is_filter_of_distinct_of_pluck has_a
            (subscribe (View 0) 1 (snd (getState ["a"] (setupState has_a))))
            0
            (mkView ["a"] None
               (mkShareReplay (Some (mkReplaySubject None [1])) false))
            [same; a_is 1 (VNum 2); a_is 2 (VNum 2); a_is 3 VNull;
             a_is 4 (VNum 2)]
            (VObj (Snap 4) [("a", VNum 2)]) 1 _ eq_refl eq_refl eq_refl).
  apply reach_subscribe.
  apply (reach_getState _ _ _ ["a"]). apply reach_setup.
Defined.

Lemma replace_nth_app {A} (a : A) l m : forall i,
  i < List.length l -> replace_nth i a (l ++ m) = replace_nth i a l ++ m.
Proof.
  induction l as [|x rest IH]; intros i Hi; simpl in *; [lia|].
  destruct i as [|i]; simpl; [reflexivity|].
  f_equal. apply IH. lia.
Qed.

Lemma view_notify_length i n vs :
  List.length (fst (view_notify i n vs)) = List.length vs.
Proof.
  rewrite view_notify_step.
  destruct (nth_error vs i); simpl; [apply replace_nth_length | reflexivity].
Qed.

Lemma view_notify_grow i n vs x :
  i < List.length vs ->
  view_notify i n (vs ++ [x]) =
  (fst (view_notify i n vs) ++ [x], snd (view_notify i n vs)).
Proof.
  intros Hi. rewrite !view_notify_step.
  rewrite nth_error_app1 by exact Hi.
  destruct (nth_error vs i) as [vw|] eqn:Hnth; simpl.
  - rewrite replace_nth_app by exact Hi. reflexivity.
  - reflexivity.
Qed.

Lemma fanout_grow n x sinks : forall vs,
  (forall j, In (ToView j) sinks -> j < List.length vs) ->
  fanout n sinks (vs ++ [x]) =
  (fst (fanout n sinks vs) ++ [x], snd (fanout n sinks vs)).
Proof.
  induction sinks as [|[o|i] rest IH]; intros vs Hin; simpl.
  - reflexivity.
  - rewrite IH by (intros j Hj; apply Hin; right; exact Hj).
    destruct (fanout n rest vs); reflexivity.
  - rewrite view_notify_grow by (apply Hin; left; reflexivity).
    pose proof (view_notify_length i n vs) as Hlen.
    destruct (view_notify i n vs) as [vs1 evs1]; simpl in *.
    rewrite IH by (intros j Hj; rewrite Hlen; apply Hin; right; exact Hj).
    destruct (fanout n rest vs1); reflexivity.
Qed.

Lemma count_view_in j sinks : In (ToView j) sinks -> 0 < count_view j sinks.
Proof.
  induction sinks as [|[o|i] rest IH]; simpl; [intros []| |].
  - intros [H|H]; [discriminate | auto].
  - intros [H|H].
    + injection H as ->. rewrite Nat.eqb_refl. lia.
    + destruct (Nat.eqb i j); auto with arith.
Qed.

Lemma chained_in_range P init c j :
  reachable P init c -> In (ToView j) (sinks c) ->
  j < List.length (views c).
Proof.
  intros Hreach Hin.
  destruct (chain_inv_reachable _ _ _ Hreach) as (_ & H2 & _).
  apply count_view_in in Hin. rewrite H2 in Hin.
  destruct (live_at (views c) j) eqn:Hl; [|lia].
  destruct (live_at_nth _ _ Hl) as (vw & Hvw & _).
  apply nth_error_Some. congruence.
Qed.

(** X6: on a reachable container, building a view with [getState] and
    submitting an update commute: an observable that nobody has
    subscribed to does not change what the update does, to the state or
    to any observer, and the update does not change the handle that
    [getState] returns. *)
Theorem X6_getState_commutes_with_setState :
  forall init c p u,
    reachable any_update init c ->
    getState p (setState u c) =
    (fst (getState p c), setState u (snd (getState p c))).
Proof.
  intros init c p u Hreach.
  unfold getState. destruct (Boolean _); [|reflexivity].
  simpl.
  set (new := mkView p None share_init).
  set (c' := with_views (views c ++ [new]) c).
  destruct (stateUpdate_seed c) as [state|] eqn:Hseed.
  2: { rewrite (setState_unsubscribed u c Hseed).
       rewrite (setState_unsubscribed u c' Hseed). reflexivity. }
  pose proof (fun j => chained_in_range _ _ _ j Hreach) as Hrange.
  destruct (snd (accumulator (allocated c) state u)) as [state'|e] eqn:Hacc.
  - rewrite (setState_return u c state state' Hseed Hacc).
    rewrite (setState_return u c' state state' Hseed Hacc).
    assert (Hs : snd (share_next (state_shared c) state') = sinks c).
    { unfold share_next, sinks.
      destruct (subject (state_shared c)); reflexivity. }
    simpl. rewrite Hs.
    rewrite (fanout_grow (Next state') new (sinks c) (views c))
      by (intros j; apply Hrange).
    simpl. rewrite fanout_length. reflexivity.
  - rewrite (setState_throw u c state e Hseed Hacc).
    rewrite (setState_throw u c' state e Hseed Hacc).
    assert (Hs : snd (share_error (state_shared c)) = sinks c).
    { unfold share_error, sinks.
      destruct (subject (state_shared c)); reflexivity. }
    simpl. rewrite Hs.
    rewrite (fanout_grow (Error e) new (sinks c) (views c))
      by (intros j; apply Hrange).
    simpl. rewrite fanout_length. reflexivity.
Qed.

Lemma X6_getState_commutes_with_setState_witness :
  getState ["b"]
    (setState (a_is 1 (VNum 2))
       (subscribe (View 0) 1 (snd (getState ["a"] (setupState has_a))))) =
  (View 1,
   setState (a_is 1 (VNum 2))
     (snd (getState ["b"]
             (subscribe (View 0) 1
                (snd (getState ["a"] (setupState has_a))))))).
Proof.
  refine (X6_getState_commutes_with_setState has_a
            (subscribe (View 0) 1 (snd (getState ["a"] (setupState has_a))))
            ["b"] (a_is 1 (VNum 2)) _).
  apply reach_subscribe.
  apply (reach_getState _ _ _ ["a"]). apply reach_setup.
Defined.

End Runs.

(* ================================================================== *)
(** * Subscribing to a view; paths; merges *)
(* ================================================================== *)

Section Usage.

Import Examples.

Lemma plucker_spread_same r state k rest :
  plucker (k :: rest) (spread2 r state state) = plucker (k :: rest) state.
Proof.
  rewrite !plucker_cons, get_spread2. unfold get.
  destruct (lookup k (ownProps state)); reflexivity.
Qed.

Lemma subscribed_self o : subscribed o [o] = 1.
Proof. unfold subscribed; simpl. rewrite Nat.eqb_refl. reflexivity. Qed.

(** X7: the note in the header of [index.ts].  After [setupState(init)],
    an observer of [getState(k, ...rest)] is handed nothing when it
    subscribes; the update [state => state] then hands it the value of
    the initial state at that path, when that value is neither [null] nor
    [undefined], and nothing when it is.  An observer of the full state
    is handed a new object with the fields of the initial state. *)
Theorem X7_identity_update_emits_the_initial_value :
  forall init k rest o,
    received (View 0) o
      (subscribe (View 0) o (snd (getState (k :: rest) (setupState init))))
      = [] /\
    received (View 0) o
      (setState (UpdateFunction (fun state => Return state))
         (subscribe (View 0) o
            (snd (getState (k :: rest) (setupState init))))) =
      (if present (plucker (k :: rest) init)
       then [Next (plucker (k :: rest) init)]
       else []) /\
    received Full o
      (setState (UpdateFunction (fun state => Return state))
         (subscribe Full o (setupState init))) =
      [Next (spread2 (Snap 0) init init)] /\
    (forall field, get (spread2 (Snap 0) init init) field = get init field).
Proof.
  intros init k rest o.
  split; [reflexivity|]. split; [|split].
  - set (c := subscribe (View 0) o
                (snd (getState (k :: rest) (setupState init)))).
    assert (Hreach : reachable any_update init c).
    { apply reach_subscribe. apply (reach_getState _ _ _ (k :: rest)).
      apply reach_setup. }
    destruct (setState_view_return any_update init c 0
                (mkView (k :: rest) None
                   (mkShareReplay (Some (mkReplaySubject None [o])) false))
                (UpdateFunction (fun state => Return state))
                (spread2 (Snap 0) init init)
                Hreach eq_refl eq_refl eq_refl) as (_ & _ & _ & _ & Hrecv).
    rewrite Hrecv. simpl path.
    rewrite plucker_spread_same.
    change (view_observers _) with [o]. rewrite subscribed_self.
    reflexivity.
  - rewrite (setState_return (UpdateFunction (fun state => Return state))
               (subscribe Full o (setupState init)) init
               (spread2 (Snap 0) init init) eq_refl eq_refl).
    unfold received. cbn [delivered]. rewrite notes_app, fanout_full.
    cbn. rewrite Nat.eqb_refl. reflexivity.
  - intros field. rewrite get_spread2. unfold get.
    destruct (lookup field (ownProps init)); reflexivity.
Qed.

(** What an observer is handed when it subscribes to a view: on a
    connected view what the view's replay subject holds, on a view that is
    not connected the value at the path in what [state$] holds. *)
Lemma subscribe_view_handed :
  forall init c i vw o,
    reachable any_update init c ->
    nth_error (views c) i = Some vw ->
    received (View i) o (subscribe (View i) o c) =
    received (View i) o c ++
    if view_live vw
    then match last_emitted vw with
         | Some v => [Next v]
         | None => []
         end
    else match latest c with
         | Some state =>
             if present (plucker (path vw) state)
             then [Next (plucker (path vw) state)]
             else []
         | None => []
         end.
Proof.
  intros init c i vw o Hreach Hi.
  destruct (chain_inv_reachable _ _ _ Hreach) as (H1 & _ & _).
  unfold subscribe. rewrite Hi.
  assert (Hcases :
    (view_live vw = false /\
     (subject (shared vw) = None \/ hasError (shared vw) = true)) \/
    (exists vrs, subject (shared vw) = Some vrs /\
                 hasError (shared vw) = false)).
  { unfold view_live. destruct (subject (shared vw)) as [vrs|].
    - destruct (hasError (shared vw)); [left | right]; eauto.
    - left. auto. }
  destruct Hcases as [[Hdead Hwhy]|(vrs & Hvrs & Hverr)].
  - rewrite (share_subscribe_fresh (shared vw) o Hwhy), Hdead.
    set (vw0 := mkView (path vw) None
                  (mkShareReplay (Some (mkReplaySubject None [o])) false)).
    set (c0 := with_views (replace_nth i vw0 (views c)) c).
    destruct (subscribe_state_chain (ToView i) c0 H1) as (_ & _ & Hsnap & _).
    destruct (subscribe_state_frame (ToView i) c0) as (Hv & Hd & _).
    destruct (subscribe_state (ToView i) c0) as [c1 snap]; simpl in *.
    change (latest c0) with (latest c) in Hsnap. subst snap.
    destruct (latest c) as [state|].
    + rewrite view_notify_step, Hv, nth_error_replace_nth, Nat.eqb_refl, Hi.
      unfold received. simpl. rewrite Hd, notes_app. f_equal.
      rewrite (view_next_notes i vw0 state (mkReplaySubject None [o]) o eq_refl).
      simpl observers. rewrite subscribed_self. reflexivity.
    + unfold received. rewrite Hd, app_nil_r. reflexivity.
  - rewrite (share_subscribe_join (shared vw) o vrs Hvrs Hverr).
    unfold view_live, last_emitted, received. rewrite Hvrs, Hverr. simpl.
    rewrite notes_app. f_equal.
    destruct (buffer vrs); [|reflexivity].
    unfold notes; simpl. rewrite !Nat.eqb_refl. reflexivity.
Qed.

(** X10: two partial updates in a row on a connected pipeline: in the
    state the reducer then holds, a field is the second partial's when the
    second has it, else the first's when the first has it, else what it
    was before. *)
Theorem X10_later_partial_wins_field_by_field :
  forall c state rs a p b q,
    stateUpdate_seed c = Some state ->
    subject (state_shared c) = Some rs ->
    Boolean (get (VObj a p) "apply") = false ->
    Boolean (get (VObj b q) "apply") = false ->
    exists state2,
      stateUpdate_seed
        (submit [Partial (VObj a p); Partial (VObj b q)] c) = Some state2 /\
      forall k,
        get state2 k =
        match lookup k q with
        | Some v => v
        | None => match lookup k p with
                  | Some v => v
                  | None => get state k
                  end
        end.
Proof.
  intros c state rs a p b q Hseed Hrs Hp Hq.
  set (s1 := spread2 (Snap (allocated c)) state (VObj a p)).
  set (s2 := spread2 (Snap (S (allocated c))) s1 (VObj b q)).
  assert (Hfold : folded (allocated c) state
                    [Partial (VObj a p); Partial (VObj b q)] = Return s2).
  { rewrite folded_cons, accumulator_partial_object, Hp.
    rewrite folded_cons, accumulator_partial_object, Hq. reflexivity. }
  destruct (submit_connected _ c state rs s2 Hseed Hrs Hfold) as (Hfinal & _).
  exists s2. split; [exact Hfinal|].
  intros k. unfold s2, s1. rewrite !get_spread2. reflexivity.
Qed.

Lemma X10_later_partial_wins_field_by_field_witness :
  exists state2,
    stateUpdate_seed
      (submit [Partial (VObj (Lit 2) [("a", VNum 7); ("b", VNum 8)]);
               Partial (VObj (Lit 3) [("b", VNum 9)])]
         (subscribe Full 0 (setupState nested))) = Some state2 /\
    forall k,
      get state2 k =
      match lookup k [("b", VNum 9)] with
      | Some v => v
      | None => match lookup k [("a", VNum 7); ("b", VNum 8)] with
                | Some v => v
                | None => get nested k
                end
      end.
Proof.
  exact (X10_later_partial_wins_field_by_field
           (subscribe Full 0 (setupState nested)) nested
           (mkReplaySubject None [ToObserver 0])
           (Lit 2) [("a", VNum 7); ("b", VNum 8)]
           (Lit 3) [("b", VNum 9)]
           eq_refl eq_refl eq_refl eq_refl).
Defined.

Lemma accumulator_return r state u state' :
  snd (accumulator r state u) = Return state' ->
  exists partial, state' = spread2 (Snap r) state partial.
Proof.
  destruct u as [p|f].
  - unfold accumulator, bind.
    destruct p as [| |x|x|x|ref props]; simpl; try discriminate;
      try (destruct (Boolean _); simpl; [discriminate|]);
      intros [= <-]; eauto.
  - rewrite accumulator_function. simpl.
    destruct (f state) as [partial|e]; [|discriminate].
    intros [= <-]. eauto.
Qed.

Lemma assign_keys_dst src : forall dst k,
  In k (map fst dst) -> In k (map fst (assign dst src)).
Proof.
  unfold assign.
  induction src as [|[k' v'] rest IH]; intros dst k Hk; simpl; [exact Hk|].
  apply IH. apply set_keys. right. exact Hk.
Qed.

Lemma assign_keys_src src : forall dst k,
  In k (map fst src) -> In k (map fst (assign dst src)).
Proof.
  induction src as [|[k' v'] rest IH]; intros dst k Hk; [destruct Hk|].
  change (assign dst ((k', v') :: rest)) with (assign (set k' v' dst) rest).
  destruct Hk as [<-|Hk].
  - apply assign_keys_dst. apply set_keys. left. reflexivity.
  - apply IH. exact Hk.
Qed.

(** X11: whenever the reducer gives a state, for a partial or for an
    update function, that state is a newly created object, no key occurs
    in it twice, and every top-level field of the state before is still a
    field of it: an update can overwrite a field but cannot remove one. *)
Theorem X11_merge_creates_an_object_and_keeps_every_field :
  forall r state u state',
    snd (accumulator r state u) = Return state' ->
    (exists props, state' = VObj (Snap r) props) /\
    NoDup (map fst (ownProps state')) /\
    (forall k, In k (map fst (ownProps state)) ->
               In k (map fst (ownProps state'))).
Proof.
  intros r state u state' Hacc.
  destruct (accumulator_return r state u state' Hacc) as (partial & ->).
  unfold spread2. simpl ownProps.
  destruct (assign_spec (ownProps state) [] (NoDup_nil _)) as [Hnd _].
  destruct (assign_spec (ownProps partial) _ Hnd) as [Hnd' _].
  split; [eauto|]. split; [exact Hnd'|].
  intros k Hk. apply assign_keys_dst. apply assign_keys_src. exact Hk.
Qed.

Lemma X11_merge_creates_an_object_and_keeps_every_field_witness :
  (exists props,
      VObj (Snap 4) [("a", obj 3 [("y", VNum 2)]); ("b", VNum 2)] =
      VObj (Snap 4) props) /\
  NoDup (map fst [("a", obj 3 [("y", VNum 2)]); ("b", VNum 2)]) /\
  (forall k, In k (map fst (ownProps nested)) ->
             In k (map fst [("a", obj 3 [("y", VNum 2)]); ("b", VNum 2)])).
Proof.
  exact (X11_merge_creates_an_object_and_keeps_every_field 4 nested replace_a
           (VObj (Snap 4) [("a", obj 3 [("y", VNum 2)]); ("b", VNum 2)])
           eq_refl).
Defined.

End Usage.

(* ================================================================== *)
(** * Late subscribers *)
(* ================================================================== *)

Section LateSubscribers.

Import Examples.

Lemma reachable_submit init updates : forall c,
  reachable any_update init c -> reachable any_update init (submit updates c).
Proof.
  induction updates as [|u rest IH]; intros c Hc; [exact Hc|].
  apply (IH (setState u c)). apply reach_setState; [exact Hc | exact I].
Qed.

Lemma submit_allocated updates : forall c state final,
  stateUpdate_seed c = Some state ->
  folded (allocated c) state updates = Return final ->
  allocated (submit updates c) = allocated c + List.length updates.
Proof.
  induction updates as [|u rest IH]; intros c state final Hseed Hfold.
  - simpl. lia.
  - rewrite folded_cons in Hfold.
    destruct (snd (accumulator (allocated c) state u)) as [state'|e] eqn:Hacc;
      [|discriminate].
    change (submit (u :: rest) c) with (submit rest (setState u c)).
    pose proof (setState_return u c state state' Hseed Hacc) as Hstep.
    rewrite (IH (setState u c) state' final).
    + rewrite Hstep. simpl. lia.
    + rewrite Hstep. reflexivity.
    + rewrite Hstep. exact Hfold.
Qed.

Lemma flat_map_nothing {A B} (l : list A) (f : A -> B) :
  flat_map (fun a => repeat (f a) 0) l = [].
Proof. induction l as [|a l IH]; simpl; [reflexivity | exact IH]. Qed.

Lemma connected_subject P init c state :
  reachable P init c -> stateUpdate_seed c = Some state ->
  exists rs, subject (state_shared c) = Some rs /\
             hasError (state_shared c) = false.
Proof.
  intros Hreach Hseed.
  pose proof (seed_inv_reachable _ _ _ Hreach) as [_ Hinv].
  destruct (subject (state_shared c)) as [rs|].
  - destruct (hasError (state_shared c)); [|eauto].
    rewrite Hinv in Hseed by (right; reflexivity). discriminate.
  - rewrite Hinv in Hseed by (left; reflexivity). discriminate.
Qed.

Lemma unconnected_latest P init c :
  reachable P init c -> stateUpdate_seed c = None -> latest c = None.
Proof.
  intros Hreach Hseed.
  pose proof (seed_inv_reachable _ _ _ Hreach) as [Hinv _].
  unfold latest. destruct (Hinv Hseed) as [-> | ->]; [reflexivity|].
  destruct (subject (state_shared c)); reflexivity.
Qed.

(** What [state$] holds after a run on a connected pipeline. *)
Lemma submit_latest P init c state updates final :
  reachable P init c ->
  stateUpdate_seed c = Some state ->
  folded (allocated c) state updates = Return final ->
  latest (submit updates c) =
  match updates with
  | [] => latest c
  | _ :: _ => Some final
  end.
Proof.
  intros Hreach Hseed Hfold.
  destruct (connected_subject _ _ _ _ Hreach Hseed) as (rs & Hrs & Herr).
  destruct (submit_connected updates c state rs final Hseed Hrs Hfold)
    as (_ & (rs' & Hrs' & _ & Hbuf) & Herr' & _).
  unfold latest. rewrite Hrs', Herr', Hrs, Herr, Hbuf.
  destruct updates; reflexivity.
Qed.

(** C1, amended: [scan] never emits its seed.  While nothing is
    subscribed, updates are dropped and [state$] holds no snapshot: a
    subscriber of the full snapshot sequence that attaches then, and so
    one that attaches before any update, is handed nothing on subscription
    (never the initial state by itself) and afterwards the snapshots of
    the updates that follow, folded from the initial state.  On a
    connected pipeline a late subscriber is handed at once the most
    recently published snapshot, that is the left fold of the updates
    processed so far, which is also the state the reducer holds, and then
    every subsequent snapshot in publication order. *)
Theorem C1_late_subscriber_replay :
  forall init c o before after,
    reachable any_update init c ->
    subscriptions o c = 0 ->
    latest (setupState init) = None /\
    (forall state, latest c = Some state -> stateUpdate_seed c = Some state) /\
    (stateUpdate_seed c = None ->
     forall final,
       folded (allocated c) (initialState c) after = Return final ->
       received Full o (submit after (subscribe Full o (submit before c))) =
       received Full o c ++
       map Next (snapshots (allocated c) (initialState c) after)) /\
    (forall state mid final,
       stateUpdate_seed c = Some state ->
       folded (allocated c) state before = Return mid ->
       folded (allocated c + List.length before) mid after = Return final ->
       received Full o (submit after (subscribe Full o (submit before c))) =
       received Full o c ++
       handed (match before with
               | [] => latest c
               | _ :: _ => Some mid
               end) ++
       map Next (snapshots (allocated c + List.length before) mid after)).
Proof.
  intros init c o before after Hreach Hcount.
  split; [reflexivity|].
  split; [apply (latest_seed_reachable _ _ _ Hreach)|].
  split.
  - intros Hseed final Hfold.
    rewrite (submit_unsubscribed before c Hseed).
    destruct (subscribe_full o c (seed_inv_reachable _ _ _ Hreach) Hcount)
      as (Hseed2 & Halloc & (rs & Hrs & Hone) & Hrecv).
    assert (Hcur : current c = initialState c)
      by (unfold current; rewrite Hseed; reflexivity).
    rewrite Hcur in Hseed2. rewrite <- Halloc in Hfold.
    destruct (submit_connected after _ _ rs final Hseed2 Hrs Hfold)
      as (_ & _ & _ & _ & Hrun).
    rewrite Hrun, Hrecv, Hone, Halloc, flat_map_once.
    rewrite (unconnected_latest _ _ _ Hreach Hseed), app_nil_r.
    reflexivity.
  - intros state mid final Hseed Hbefore Hafter.
    destruct (connected_subject _ _ _ _ Hreach Hseed) as (rs & Hrs & Herr).
    pose proof (reachable_submit init before c Hreach) as Hreach1.
    pose proof (submit_latest _ _ _ _ _ _ Hreach Hseed Hbefore) as Hlatest1.
    pose proof (submit_allocated _ _ _ _ Hseed Hbefore) as Halloc1.
    destruct (submit_connected before c state rs mid Hseed Hrs Hbefore)
      as (Hseed1 & (rs1 & Hrs1 & Hobs1 & _) & _ & _ & Hrecv1).
    assert (Hzero : count o (observers rs) = 0)
      by (unfold subscriptions in Hcount; rewrite Hrs in Hcount; exact Hcount).
    assert (Hcount1 : subscriptions o (submit before c) = 0)
      by (unfold subscriptions; rewrite Hrs1, Hobs1; exact Hzero).
    destruct (subscribe_full o _ (seed_inv_reachable _ _ _ Hreach1) Hcount1)
      as (Hseed2 & Halloc2 & (rs2 & Hrs2 & Hone) & Hrecv2).
    assert (Hcur1 : current (submit before c) = mid)
      by (unfold current; rewrite Hseed1; reflexivity).
    rewrite Hcur1 in Hseed2.
    rewrite <- Halloc1, <- Halloc2 in Hafter.
    destruct (submit_connected after _ _ rs2 final Hseed2 Hrs2 Hafter)
      as (_ & _ & _ & _ & Hrun).
    rewrite Hrun, Hrecv2, Hone, flat_map_once, Halloc2, Halloc1.
    rewrite Hrecv1, Hzero, flat_map_nothing, app_nil_r, Hlatest1.
    rewrite <- app_assoc. reflexivity.
Qed.

Lemma C1_late_subscriber_replay_witness :
  received Full 2
    (submit [increment]
       (subscribe Full 2
          (submit [set_v; set_w] (subscribe Full 1 (setupState counter))))) =
  [Next (VObj (Snap 1) [("v", VNum 1); ("w", VNum 2)]);
   Next (VObj (Snap 2) [("v", VNum 2); ("w", VNum 2)])].
Proof.
  refine (proj2 (proj2 (proj2
            (C1_late_subscriber_replay counter
               (subscribe Full 1 (setupState counter)) 2
               [set_v; set_w] [increment] _ eq_refl)))
            counter
            (VObj (Snap 1) [("v", VNum 1); ("w", VNum 2)])
            (VObj (Snap 2) [("v", VNum 2); ("w", VNum 2)])
            eq_refl eq_refl eq_refl).
  apply reach_subscribe. apply reach_setup.
Defined.

End LateSubscribers.

(* ================================================================== *)
(** * What the distinct-change stage withholds *)
(* ================================================================== *)

Section Withheld.

Import Examples.

Lemma suppressed_feed i vw states state :
  key vw = None ->
  suppressed (feed i vw states) state =
  match rev states with
  | [] => false
  | previous :: _ =>
      strict_eq (plucker (path vw) previous) (plucker (path vw) state)
  end.
Proof.
  intros Hkey.
  destruct (rev states) as [|previous earlier] eqn:Hrev.
  - apply (f_equal (@rev value)) in Hrev. rewrite rev_involutive in Hrev.
    subst states. unfold suppressed, feed; simpl. rewrite Hkey. reflexivity.
  - apply (f_equal (@rev value)) in Hrev. rewrite rev_involutive in Hrev.
    simpl in Hrev. subst states.
    unfold suppressed. rewrite feed_snoc, view_next_key, view_next_path.
    rewrite feed_path.
    destruct (distinct_key_tracks (key (feed i vw (rev earlier)))
                (plucker (path vw) previous)) as (k & -> & Hk).
    rewrite <- (strict_eq_left k _ (plucker (path vw) state) Hk).
    simpl. destruct (strict_eq k (plucker (path vw) state)); reflexivity.
Qed.

Lemma feed_observers i states : forall vw,
  view_observers (feed i vw states) = view_observers vw.
Proof.
  unfold feed. induction states as [|s rest IH]; intros vw; simpl.
  - reflexivity.
  - rewrite IH. apply view_next_observers.
Qed.

(** What one snapshot makes a view deliver. *)
Lemma view_next_events i vw state :
  snd (view_next i vw state) =
  if negb (suppressed vw state) && present (plucker (path vw) state)
  then map (fun o => mkEvent (View i) o (Next (plucker (path vw) state)))
         (view_observers vw)
  else [].
Proof.
  unfold view_next, suppressed, view_observers.
  destruct (distinctUntilChanged _ _) as [key' passed]; simpl.
  rewrite Bool.negb_involutive.
  destruct (passed && present _); [|reflexivity].
  unfold share_next. destruct (subject (shared vw)); reflexivity.
Qed.

(** C4, amended: the distinct-change stage sits before the absence filter
    and compares a candidate with the candidate of the snapshot just
    before, whether or not the filter let that one through.  For a
    pipeline newly chained onto the snapshot sequence, the first candidate
    passes the stage and a later one is held back exactly when it is
    [===] to the candidate just before; a candidate is delivered to the
    observers exactly when it is not held back and is neither [null] nor
    [undefined].  On a reachable container with a connected view: the
    first snapshot delivers its candidate when that is present, and of two
    updates in a row the second delivers its candidate exactly when that
    is not [===] to the first's candidate and is present. *)
Theorem C4_distinct_compares_with_previous_candidate :
  (forall i vw states state,
     key vw = None ->
     suppressed (feed i vw states) state =
       match rev states with
       | [] => false
       | previous :: _ =>
           strict_eq (plucker (path vw) previous) (plucker (path vw) state)
       end /\
     snd (view_next i (feed i vw states) state) =
       if negb (suppressed (feed i vw states) state) &&
          present (plucker (path vw) state)
       then map (fun o => mkEvent (View i) o (Next (plucker (path vw) state)))
              (view_observers vw)
       else []) /\
  (forall init c i vw u1 u2 s1 s2 o,
     reachable any_update init c ->
     nth_error (views c) i = Some vw ->
     view_live vw = true ->
     snd (accumulator (allocated c) (current c) u1) = Return s1 ->
     snd (accumulator (S (allocated c)) s1 u2) = Return s2 ->
     (latest c = None ->
      received (View i) o (setState u1 c) =
      received (View i) o c ++
      if present (plucker (path vw) s1)
      then repeat (Next (plucker (path vw) s1))
             (subscribed o (view_observers vw))
      else []) /\
     received (View i) o (setState u2 (setState u1 c)) =
     received (View i) o (setState u1 c) ++
     if negb (strict_eq (plucker (path vw) s1) (plucker (path vw) s2)) &&
        present (plucker (path vw) s2)
     then repeat (Next (plucker (path vw) s2))
            (subscribed o (view_observers vw))
     else []).
Proof.
  split.
  - intros i vw states state Hkey. split.
    + apply suppressed_feed. exact Hkey.
    + rewrite view_next_events, feed_path, feed_observers. reflexivity.
  - intros init c i vw u1 u2 s1 s2 o Hreach Hi Hlive Hacc1 Hacc2.
    destruct (setState_view_return _ _ _ _ _ _ _ Hreach Hi Hlive Hacc1)
      as (Hi1 & Halloc1 & Hcur1 & Hlat1 & Hrecv1).
    split.
    + intros Hnone. rewrite Hrecv1, Hnone. reflexivity.
    + assert (Hreach1 : reachable any_update init (setState u1 c))
        by (apply reach_setState; [exact Hreach | exact I]).
      rewrite <- Halloc1, <- Hcur1 in Hacc2.
      destruct (setState_view_return _ _ _ _ _ _ _ Hreach1 Hi1
                  (eq_trans (view_next_live i vw s1) Hlive) Hacc2)
        as (_ & _ & _ & _ & Hrecv2).
      rewrite Hrecv2, Hlat1, view_next_path, view_next_observers.
      reflexivity.
Qed.

Lemma C4_distinct_compares_with_previous_candidate_witness :
  received (View 0) 1
    (setState (a_is 3 (VNum 1))
       (setState (a_is 2 (VNum 1))
          (setState (a_is 1 (VNum 1))
             (subscribe (View 0) 1
                (snd (getState ["a"] (setupState has_a))))))) =
  [Next (VNum 1)].
Proof.
  refine (proj2 (proj2 C4_distinct_compares_with_previous_candidate has_a
            (setState (a_is 1 (VNum 1))
               (subscribe (View 0) 1
                  (snd (getState ["a"] (setupState has_a)))))
            0
            (mkView ["a"] (Some (VNum 1))
               (mkShareReplay (Some (mkReplaySubject (Some (VNum 1)) [1]))
                  false))
            (a_is 2 (VNum 1)) (a_is 3 (VNum 1))
            (VObj (Snap 1) [("a", VNum 1)]) (VObj (Snap 2) [("a", VNum 1)])
            1 _ eq_refl eq_refl eq_refl eq_refl)).
  apply reach_setState; [|exact I].
  apply reach_subscribe.
  apply (reach_getState _ _ _ ["a"]). apply reach_setup.
Defined.

End Withheld.

(* ================================================================== *)
(** * What a new observer of a view is handed *)
(* ================================================================== *)

Section ViewReplay.

Import Examples.

Lemma last_value_app a b d :
  last_value (a ++ b) d = last_value b (last_value a d).
Proof.
  unfold last_value. rewrite rev_app_distr.
  destruct (rev b) as [|v rest]; simpl; reflexivity.
Qed.

Lemma view_next_last_emitted i vw state :
  view_live vw = true ->
  last_emitted (fst (view_next i vw state)) =
  if negb (suppressed vw state) && present (plucker (path vw) state)
  then Some (plucker (path vw) state)
  else last_emitted vw.
Proof.
  intros Hlive. destruct (view_live_subject vw Hlive) as (vrs & Hvrs & _).
  unfold view_next, suppressed, last_emitted.
  destruct (distinctUntilChanged _ _) as [key' passed]; simpl.
  rewrite Bool.negb_involutive.
  destruct (passed && present _); [|reflexivity].
  unfold share_next. rewrite Hvrs. reflexivity.
Qed.

(** The view after a run: still connected, and its replay subject holds
    the last value the run made it deliver. *)
Lemma submit_view_state updates : forall init c i vw final,
  reachable any_update init c ->
  nth_error (views c) i = Some vw ->
  view_live vw = true ->
  folded (allocated c) (current c) updates = Return final ->
  exists vw',
    nth_error (views (submit updates c)) i = Some vw' /\
    view_live vw' = true /\
    last_emitted vw' =
    last_value
      (filter present
         (distinct_run (option_map (plucker (path vw)) (latest c))
            (map (plucker (path vw))
               (snapshots (allocated c) (current c) updates))))
      (last_emitted vw).
Proof.
  induction updates as [|u rest IH]; intros init c i vw final Hreach Hi Hlive Hfold.
  - exists vw. auto.
  - rewrite folded_cons in Hfold.
    destruct (snd (accumulator (allocated c) (current c) u)) as [state'|e]
      eqn:Hacc; [|discriminate].
    destruct (setState_view_return _ _ _ _ _ _ _ Hreach Hi Hlive Hacc)
      as (Hi1 & Halloc & Hcur & Hlat & _).
    destruct (live_view_connected _ _ _ _ _ Hreach Hi Hlive)
      as (_ & _ & _ & _ & _ & Htracks).
    change (submit (u :: rest) c) with (submit rest (setState u c)).
    assert (Hreach1 : reachable any_update init (setState u c))
      by (apply reach_setState; [exact Hreach | exact I]).
    rewrite <- Halloc, <- Hcur in Hfold.
    destruct (IH init (setState u c) i _ final Hreach1 Hi1
                (eq_trans (view_next_live i vw state') Hlive) Hfold)
      as (vw' & Hi' & Hlive' & Hlast).
    exists vw'. split; [exact Hi'|]. split; [exact Hlive'|].
    rewrite Hlast, Hlat, Halloc, Hcur, view_next_path.
    rewrite (view_next_last_emitted i vw state' Hlive).
    rewrite (passes_tracks vw _ state' Htracks).
    simpl snapshots. rewrite Hacc. simpl map.
    rewrite distinct_run_step, filter_app, last_value_app.
    f_equal.
    destruct (changed (path vw) (latest c) (plucker (path vw) state')); simpl;
      [|reflexivity].
    destruct (present (plucker (path vw) state')); reflexivity.
Qed.

(** A view that is not connected is not touched by updates. *)
Lemma submit_view_idle updates : forall init c i vw,
  reachable any_update init c ->
  nth_error (views c) i = Some vw ->
  view_live vw = false ->
  nth_error (views (submit updates c)) i = Some vw /\
  forall o, received (View i) o (submit updates c) = received (View i) o c.
Proof.
  induction updates as [|u rest IH]; intros init c i vw Hreach Hi Hdead.
  - split; [exact Hi | reflexivity].
  - change (submit (u :: rest) c) with (submit rest (setState u c)).
    assert (Hreach1 : reachable any_update init (setState u c))
      by (apply reach_setState; [exact Hreach | exact I]).
    assert (Hstep : nth_error (views (setState u c)) i = Some vw /\
                    forall o, received (View i) o (setState u c) =
                              received (View i) o c).
    { destruct (chain_inv_reachable _ _ _ Hreach) as (_ & H2 & _).
      specialize (H2 i). unfold live_at in H2. rewrite Hi, Hdead in H2.
      destruct (stateUpdate_seed c) as [state|] eqn:Hseed;
        [|rewrite setState_unsubscribed by assumption; auto].
      destruct (snd (accumulator (allocated c) state u)) as [state'|e] eqn:Hacc.
      - rewrite (setState_return u c state state' Hseed Hacc).
        assert (Hs : snd (share_next (state_shared c) state') = sinks c).
        { unfold share_next, sinks.
          destruct (subject (state_shared c)); reflexivity. }
        unfold received. simpl. rewrite Hs.
        destruct (fanout_view_zero (Next state') i (sinks c) (views c) H2)
          as [Hn Hev].
        split; [rewrite Hn; exact Hi|].
        intros o. rewrite notes_app, Hev, app_nil_r. reflexivity.
      - rewrite (setState_throw u c state e Hseed Hacc).
        assert (Hs : snd (share_error (state_shared c)) = sinks c).
        { unfold share_error, sinks.
          destruct (subject (state_shared c)); reflexivity. }
        unfold received. simpl. rewrite Hs.
        destruct (fanout_view_zero (Error e) i (sinks c) (views c) H2)
          as [Hn Hev].
        split; [rewrite Hn; exact Hi|].
        intros o. rewrite notes_app, Hev, app_nil_r. reflexivity. }
    destruct Hstep as [Hi1 Hrecv1].
    destruct (IH init (setState u c) i vw Hreach1 Hi1 Hdead) as [Hi2 Hrecv2].
    split; [exact Hi2|]. intros o. rewrite Hrecv2. apply Hrecv1.
Qed.

(** X8: what an observer is handed when it subscribes to a view of a
    reachable container after a run of updates.  On a connected view, the
    updates not throwing: the last value that the run made the view
    deliver to its observers, or, when the run delivered none, what the
    view's replay subject held before; nothing else.  On a view that is
    not connected (never subscribed, or ended by an error): the value at
    the path in the last snapshot of the run when the pipeline was
    connected and the run not empty, otherwise in the snapshot [state$]
    held before, provided there is such a snapshot and the value is
    neither [null] nor [undefined]; nothing otherwise, and the run itself
    delivers nothing through that view. *)
Theorem X8_what_a_view_subscription_is_handed :
  forall init c i vw o before final,
    reachable any_update init c ->
    nth_error (views c) i = Some vw ->
    (forall state, stateUpdate_seed c = Some state ->
                   folded (allocated c) state before = Return final) ->
    (view_live vw = true ->
     received (View i) o (subscribe (View i) o (submit before c)) =
     received (View i) o (submit before c) ++
     handed
       (last_value
          (filter present
             (distinct_run (option_map (plucker (path vw)) (latest c))
                (map (plucker (path vw))
                   (snapshots (allocated c) (current c) before))))
          (last_emitted vw))) /\
    (view_live vw = false ->
     received (View i) o (subscribe (View i) o (submit before c)) =
     received (View i) o c ++
     match (match stateUpdate_seed c, before with
            | Some _, _ :: _ => Some final
            | _, _ => latest c
            end)
     with
     | Some state =>
         if present (plucker (path vw) state)
         then [Next (plucker (path vw) state)]
         else []
     | None => []
     end).
Proof.
  intros init c i vw o before final Hreach Hi Hfold.
  pose proof (reachable_submit init before c Hreach) as Hreach1.
  split.
  - intros Hlive.
    destruct (live_view_connected _ _ _ _ _ Hreach Hi Hlive)
      as (_ & _ & _ & Hseed & _ & _).
    destruct (submit_view_state before init c i vw final Hreach Hi Hlive
                (Hfold _ Hseed)) as (vw' & Hi' & Hlive' & Hlast).
    rewrite (subscribe_view_handed init _ i vw' o Hreach1 Hi').
    rewrite Hlive', Hlast. reflexivity.
  - intros Hdead.
    destruct (submit_view_idle before init c i vw Hreach Hi Hdead)
      as [Hi' Hrecv].
    rewrite (subscribe_view_handed init _ i vw o Hreach1 Hi').
    rewrite Hdead, Hrecv. f_equal.
    destruct (stateUpdate_seed c) as [state|] eqn:Hseed.
    + rewrite (submit_latest _ _ _ _ _ _ Hreach Hseed (Hfold _ eq_refl)).
      destruct before; reflexivity.
    + rewrite (submit_unsubscribed before c Hseed). reflexivity.
Qed.

Lemma X8_what_a_view_subscription_is_handed_witness :
  received (View 0) 2
    (subscribe (View 0) 2
       (submit [a_is 1 (VNum 5); a_is 2 (VNum 6); a_is 3 VNull]
          (subscribe (View 0) 1
             (snd (getState ["a"] (setupState has_a)))))) =
  [Next (VNum 6)].
Proof.
  refine (proj1 (X8_what_a_view_subscription_is_handed has_a
            (subscribe (View 0) 1 (snd (getState ["a"] (setupState has_a))))
            0
            (mkView ["a"] None
               (mkShareReplay (Some (mkReplaySubject None [1])) false))
            2 [a_is 1 (VNum 5); a_is 2 (VNum 6); a_is 3 VNull]
            (VObj (Snap 2) [("a", VNull)]) _ eq_refl _) eq_refl).
  - apply reach_subscribe.
    apply (reach_getState _ _ _ ["a"]). apply reach_setup.
  - intros state [= <-]. reflexivity.
Defined.

End ViewReplay.
